(** * MTA audio extractor: a shallow embedding of [mta_extractor.py]

    The container decoder of the extractor (section locator, entry table
    walker, sample header parser, payload transformer, file name
    sanitation and the per-entry extraction loop) is embedded function by
    function, and the properties its specification states are proved
    about those functions.

    Conventions of the embedding:
    - Python [bytes] is [list byte]; Python [int] is [Z]; Python [str] is a
      list of Unicode code points ([N]).
    - A Python call that may raise returns a [result]; the exceptions that
      matter are listed in [exn].
    - Slices follow Python's rules (negative bounds count from the end and
      every bound is clamped to the sequence).
    - [print] is not modelled: it changes neither the values returned nor
      the files written. *)

From Stdlib Require Import Strings.Byte Strings.String Strings.Ascii.
From Stdlib Require Import ZArith List Lia Bool.
From Stdlib Require Decimal DecimalN.
From Equations Require Import Equations.
Import ListNotations.
Open Scope Z_scope.

(** ** Python values *)

Definition bytes := list byte.

(** A [str] is a sequence of code points. *)
Definition str := list N.

(** [len(x)] *)
Definition len {A : Type} (l : list A) : Z := Z.of_nat (length l).

(** The integer value of one byte, [0 .. 255]. *)
Definition byte_val (b : byte) : Z := Z.of_N (Byte.to_N b).

(** Exceptions raised by the operations the extractor uses. *)
Inductive exn : Type :=
| IndexError
| ValueError
| UnicodeDecodeError
| OSError.

Inductive result (A : Type) : Type :=
| Ok (a : A)
| Raise (e : exn).
Arguments Ok {A} a.
Arguments Raise {A} e.

Definition bind {A B : Type} (r : result A) (k : A -> result B) : result B :=
  match r with
  | Ok a => k a
  | Raise e => Raise e
  end.

(** [try: body  except Exception: handler] *)
Definition try_except {A : Type} (body : result A) (handler : exn -> result A)
  : result A :=
  match body with
  | Ok a => Ok a
  | Raise e => handler e
  end.

Declare Scope py_scope.
Delimit Scope py_scope with py.
Notation "x <- c ;; k" := (bind c (fun x => k))
  (at level 61, c at next level, right associativity) : py_scope.
Notation "' p <- c ;; k" := (bind c (fun p => k))
  (at level 61, p pattern, c at next level, right associativity) : py_scope.

(** Python's adjustment of one slice bound to a sequence of length [n]:
    a negative bound counts from the end, and the result is clamped to
    [0 .. n]. *)
Definition clamp_index (n i : Z) : Z :=
  if i <? 0 then Z.max 0 (i + n) else Z.min i n.

(** [l[i:j]] *)
Definition slice {A : Type} (l : list A) (i j : Z) : list A :=
  let lo := clamp_index (len l) i in
  let hi := clamp_index (len l) j in
  firstn (Z.to_nat (hi - lo)) (skipn (Z.to_nat lo) l).

(** [l[i]]: a negative index counts from the end; out of range raises
    [IndexError]. *)
Definition index {A : Type} (l : list A) (i : Z) : result A :=
  let k := if i <? 0 then i + len l else i in
  if (k <? 0) || (len l <=? k) then Raise IndexError
  else match nth_error l (Z.to_nat k) with
       | Some a => Ok a
       | None => Raise IndexError
       end.

(** [int.from_bytes(bs, "big")] *)
Definition int_from_bytes_big (bs : bytes) : Z :=
  fold_left (fun acc b => acc * 256 + byte_val b) bs 0.

(** ** Container Locator *)

Definition find_dwav_section (data : bytes) : option Z :=
  if len data <? 0xC8 then None
  else
    let dwav_section_start := int_from_bytes_big (slice data 0xC4 0xC8) in
    if dwav_section_start >=? len data then None
    else Some dwav_section_start.

(** ** Entry Table Walker *)

(** An audio entry: [(index, absolute_offset)]. *)
Definition entry : Type := Z * Z.

(** A slice request [data[lo:hi]] issued by the walker, as written in the
    source (before Python adjusts the bounds). *)
Definition read : Type := Z * Z.

(** The [while] loop of [parse_audio_entries].  Besides the list of
    entries built so far it carries the log of the slices of [data] the
    loop has taken, in program order.  The loop runs while
    [offset + 32 <= len(data)]; each iteration either leaves the loop
    ([break]) or moves [offset] forward by 32. *)
Equations? walk (data : bytes) (dwav_offset offset : Z)
  (entries : list entry) (log : list read) : list entry * list read
  by wf (Z.to_nat (len data - offset)) lt :=
walk data dwav_offset offset entries log with Z_le_gt_dec (offset + 32) (len data) := {
  | right _ => (entries, log)
  | left _ =>
      let idx := int_from_bytes_big (slice data offset (offset + 4)) in
      let log1 := log ++ [(offset, offset + 4)] in
      if (idx =? 0) || (idx >? 0xFFFF) then (entries, log1)
      else
        let audio_ptr := int_from_bytes_big (slice data (offset + 8) (offset + 12)) in
        let log2 := log1 ++ [(offset + 8, offset + 12)] in
        let abs_offset := dwav_offset + audio_ptr in
        if abs_offset >=? len data then (entries, log2)
        else walk data dwav_offset (offset + 32) (entries ++ [(idx, abs_offset)]) log2 }.
Proof. lia. Qed.

Definition parse_audio_entries (data : bytes) (dwav_offset : Z) : list entry :=
  fst (walk data dwav_offset (dwav_offset + 32) [] []).

(** The slices of [data] that [parse_audio_entries] takes. *)
Definition parse_audio_entries_reads (data : bytes) (dwav_offset : Z) : list read :=
  snd (walk data dwav_offset (dwav_offset + 32) [] []).

(** ** Text: the character classes and string methods the extractor uses *)

(** The classification of the code points outside ASCII comes from the
    Unicode character database of the Python runtime, which is not part of
    the repository: it is an interface of the embedding. *)
Class UnicodeDB : Type := {
  (** [c.isalnum()] for a code point [c >= 128] *)
  unicode_isalnum : N -> bool;
  (** [c.isspace()] for a code point [c >= 128] *)
  unicode_isspace : N -> bool
}.

Definition in_range (lo hi c : N) : bool := ((lo <=? c) && (c <=? hi))%N.

(** ASCII letters and digits. *)
Definition ascii_isalnum (c : N) : bool :=
  in_range 48 57 c || in_range 65 90 c || in_range 97 122 c.

(** ASCII whitespace as [str.strip] sees it: TAB, LF, VT, FF, CR, the four
    separators FS, GS, RS, US, and the space. *)
Definition ascii_isspace (c : N) : bool :=
  in_range 9 13 c || in_range 28 32 c.

Definition isalnum `{UnicodeDB} (c : N) : bool :=
  if (c <? 128)%N then ascii_isalnum c else unicode_isalnum c.

Definition isspace `{UnicodeDB} (c : N) : bool :=
  if (c <? 128)%N then ascii_isspace c else unicode_isspace c.

Definition NUL : N := 0%N.
Definition SPACE : N := 32%N.
Definition HYPHEN : N := 45%N.
Definition ZERO : N := 48%N.
Definition UNDERSCORE : N := 95%N.

(** A [str] literal written as a Rocq string. *)
Definition pystr (s : string) : str := map N_of_ascii (list_ascii_of_string s).

Fixpoint lstrip `{UnicodeDB} (s : str) : str :=
  match s with
  | [] => []
  | c :: s' => if isspace c then lstrip s' else s
  end.

Definition rstrip `{UnicodeDB} (s : str) : str := rev (lstrip (rev s)).

(** [s.strip()] *)
Definition strip `{UnicodeDB} (s : str) : str := rstrip (lstrip s).

(** [s.replace(c, '')] for a one-character [c] *)
Definition remove_char (c : N) (s : str) : str :=
  filter (fun d => negb (d =? c)%N) s.

Inductive error_mode : Type := Strict | Ignore.

(** [bs.decode('ascii', errors=...)]: a byte above 127 is not ASCII; in
    strict mode it raises, with [errors='ignore'] it is dropped. *)
Fixpoint decode_ascii (errors : error_mode) (bs : bytes) : result str :=
  match bs with
  | [] => Ok []
  | b :: bs' =>
      if (Byte.to_N b <? 128)%N then
        match decode_ascii errors bs' with
        | Ok s => Ok (Byte.to_N b :: s)
        | Raise e => Raise e
        end
      else
        match errors with
        | Strict => Raise UnicodeDecodeError
        | Ignore => decode_ascii errors bs'
        end
  end.

Fixpoint uint_digits (d : Decimal.uint) : str :=
  match d with
  | Decimal.Nil => []
  | Decimal.D0 d => 48%N :: uint_digits d
  | Decimal.D1 d => 49%N :: uint_digits d
  | Decimal.D2 d => 50%N :: uint_digits d
  | Decimal.D3 d => 51%N :: uint_digits d
  | Decimal.D4 d => 52%N :: uint_digits d
  | Decimal.D5 d => 53%N :: uint_digits d
  | Decimal.D6 d => 54%N :: uint_digits d
  | Decimal.D7 d => 55%N :: uint_digits d
  | Decimal.D8 d => 56%N :: uint_digits d
  | Decimal.D9 d => 57%N :: uint_digits d
  end.

(** The decimal digits of a natural number, most significant first. *)
Definition decimal (n : N) : str := uint_digits (N.to_uint n).

(** Digits padded on the left with ["0"] up to [width] characters. *)
Definition zero_fill (width : nat) (digits : str) : str :=
  repeat ZERO (width - length digits) ++ digits.

(** [f"{idx:03d}"]: zero fill is sign aware, the sign counts in the width. *)
Definition format_03d (idx : Z) : str :=
  let digits := decimal (Z.to_N (Z.abs idx)) in
  if idx <? 0 then HYPHEN :: zero_fill 2 digits else zero_fill 3 digits.

(** ** Sample Header Parser *)

Definition extract_sample_name `{UnicodeDB} (header : bytes) : result str :=
  try_except
    (decoded <- decode_ascii Ignore (slice header 0 16) ;;
     Ok (remove_char NUL (strip decoded)))%py
    (fun _ => Ok []).

Definition parse_audio_header (header : bytes) : result (Z * Z) :=
  (let sample_rate := int_from_bytes_big (slice header 0x36 0x38) in
   let sample_rate := if sample_rate =? 0 then 44100 else sample_rate in
   channels_byte <- index header 0x49 ;;
   let channels := if byte_val channels_byte =? 2 then 2 else 1 in
   Ok (sample_rate, channels))%py.

(** ** Payload Transformer *)

(** [array.array('h', data)]: the buffer of 2-byte items, each item as the
    two bytes it occupies in memory.  A buffer whose length is not a
    multiple of the item size raises [ValueError]. *)
Fixpoint array_h (data : bytes) : result (list (byte * byte)) :=
  match data with
  | [] => Ok []
  | [_] => Raise ValueError
  | b0 :: b1 :: rest =>
      match array_h rest with
      | Ok a => Ok ((b0, b1) :: a)
      | Raise e => Raise e
      end
  end.

(** [a.byteswap()]: the two bytes of every item change places. *)
Definition byteswap (a : list (byte * byte)) : list (byte * byte) :=
  map (fun item => (snd item, fst item)) a.

(** [a.tobytes()] *)
Definition tobytes (a : list (byte * byte)) : bytes :=
  flat_map (fun item => [fst item; snd item]) a.

(** [pcm_data[:-1]] and [pcm_data[:n]] are slices whose omitted lower
    bound is 0. *)
Definition process_pcm_data (pcm_data : bytes) (channels : Z) : result bytes :=
  (let pcm_data :=
     if negb (len pcm_data mod 2 =? 0) then slice pcm_data 0 (-1) else pcm_data in
   let pcm_data :=
     if channels =? 1 then slice pcm_data 0 (len pcm_data / 2) else pcm_data in
   pcm_array <- array_h pcm_data ;;
   Ok (tobytes (byteswap pcm_array)))%py.

(** ** File name sanitation *)

Definition is_empty {A : Type} (l : list A) : bool :=
  match l with [] => true | _ => false end.

(** The characters [sanitize_filename] keeps. *)
Definition keep_char `{UnicodeDB} (c : N) : bool :=
  isalnum c || (c =? SPACE)%N || (c =? UNDERSCORE)%N || (c =? HYPHEN)%N.

Definition sanitize_filename `{UnicodeDB} (name : str) (idx : Z) : str :=
  if is_empty name then pystr "sample_" ++ format_03d idx
  else
    let clean_name := strip (filter keep_char name) in
    let clean_name :=
      if is_empty clean_name then pystr "sample_" ++ format_03d idx
      else clean_name in
    clean_name.

(** ** Extraction Orchestrator *)

(** The external collaborators: the output directory with the files in it
    (the [world]), the container writer and the directory creation.  Each
    call returns the new world and whether it raised; a writer that raises
    may still have changed the world (a file opened and left incomplete). *)
Class Writer : Type := {
  world : Type;
  (** [with wave.open(path, "wb") as wav:] [setnchannels], [setsampwidth],
      [setframerate], [writeframes], for the file name under [out_dir] *)
  wave_write : str -> Z -> Z -> Z -> bytes -> world -> world * result unit;
  (** [out_dir.mkdir(parents=True, exist_ok=True)] *)
  mkdir : world -> world * result unit
}.

(** Statements that act on the world and may raise. *)
Definition io `{Writer} (A : Type) : Type := world -> world * result A.

Definition io_ret `{Writer} {A : Type} (a : A) : io A := fun w => (w, Ok a).

Definition io_bind `{Writer} {A B : Type} (c : io A) (k : A -> io B) : io B :=
  fun w =>
    match c w with
    | (w', Ok a) => k a w'
    | (w', Raise e) => (w', Raise e)
    end.

(** A computation without effect on the world, run as a statement. *)
Definition io_lift `{Writer} {A : Type} (r : result A) : io A := fun w => (w, r).

(** [try: body  except Exception: handler] for statements. *)
Definition io_try `{Writer} {A : Type} (body : io A) (handler : exn -> io A) : io A :=
  fun w =>
    match body w with
    | (w', Ok a) => (w', Ok a)
    | (w', Raise e) => handler e w'
    end.

Declare Scope io_scope.
Delimit Scope io_scope with io.
Notation "x <- c ;; k" := (io_bind c (fun x => k))
  (at level 61, c at next level, right associativity) : io_scope.
Notation "' p <- c ;; k" := (io_bind c (fun p => k))
  (at level 61, p pattern, c at next level, right associativity) : io_scope.

(** The byte extent of entry [i]: up to the next entry's offset, or to the
    end of the container for the last one. *)
Definition entry_size (data : bytes) (entries : list entry) (i start : Z)
  : result Z :=
  (if i + 1 <? len entries then
     next <- index entries (i + 1) ;;
     Ok (snd next - start)
   else Ok (len data - start))%py.

(** The statements inside [try:] for the entry [(idx, start)] at position
    [i].  The value is [true] when control reaches
    [extracted_count += 1], and [false] when a [continue] is taken. *)
Definition try_entry `{UnicodeDB} `{Writer}
  (data : bytes) (entries : list entry) (i idx start : Z) : io bool :=
  (size <- io_lift (entry_size data entries i start) ;;
   if size <? 80 then io_ret false
   else
     let header := slice data start (start + 80) in
     name <- io_lift (extract_sample_name header) ;;
     '(sample_rate, channels) <- io_lift (parse_audio_header header) ;;
     let pcm_start := start + 80 in
     let pcm_data := slice data pcm_start (start + size) in
     if len pcm_data <? 2 then io_ret false
     else
       processed_pcm <- io_lift (process_pcm_data pcm_data channels) ;;
       let clean_name := sanitize_filename name idx in
       let out_name := format_03d idx ++ pystr "_" ++ clean_name ++ pystr ".wav" in
       _ <- wave_write out_name channels 2 sample_rate processed_pcm ;;
       io_ret true)%io.

(** One iteration of the [for] loop: the [try] statement with its
    [except Exception: continue] handler, giving the new count. *)
Definition extract_entry `{UnicodeDB} `{Writer}
  (data : bytes) (entries : list entry) (i : Z) (e : entry)
  (extracted_count : Z) : io Z :=
  (written <- io_try (try_entry data entries i (fst e) (snd e))
                     (fun _ => io_ret false) ;;
   io_ret (if written : bool then extracted_count + 1 else extracted_count))%io.

(** [for i, (idx, start) in enumerate(entries)], from position [i] on;
    [rest] is what remains to be visited. *)
Fixpoint extract_loop `{UnicodeDB} `{Writer}
  (data : bytes) (entries : list entry) (i : Z) (rest : list entry)
  (extracted_count : Z) : io Z :=
  match rest with
  | [] => io_ret extracted_count
  | e :: rest' =>
      (extracted_count' <- extract_entry data entries i e extracted_count ;;
       extract_loop data entries (i + 1) rest' extracted_count')%io
  end.

(** What [mta_path] holds when [extract_mta] looks at it. *)
Inductive input_file : Type :=
| Missing
| Unreadable (e : exn)
| Readable (data : bytes).

(** [verbose] only selects what is printed and is left out with the
    printing.  An exception of [mkdir] is not caught. *)
Definition extract_mta `{UnicodeDB} `{Writer} (mta_path : input_file) : io Z :=
  match mta_path with
  | Missing => io_ret 0
  | Unreadable _ => io_ret 0
  | Readable data =>
      match find_dwav_section data with
      | None => io_ret 0
      | Some dwav_section_start =>
          let entries := parse_audio_entries data dwav_section_start in
          if is_empty entries then io_ret 0
          else
            (_ <- mkdir ;;
             extract_loop data entries 0 entries 0)%io
      end
  end.

(** * Reference definitions

    The notions the specification uses to describe the format, written
    from its words; the theorems below compare the functions above with
    them. *)

(** The byte at position [i] of the container. *)
Definition byte_at (data : bytes) (i : Z) : Z :=
  byte_val (nth (Z.to_nat i) data x00).

(** The big-endian 16-bit unsigned integer at bytes [[off, off + 2)]. *)
Definition be_u16_at (data : bytes) (off : Z) : Z :=
  byte_at data off * 2 ^ 8 + byte_at data (off + 1).

(** The big-endian 32-bit unsigned integer at bytes [[off, off + 4)]. *)
Definition be_u32_at (data : bytes) (off : Z) : Z :=
  byte_at data off * 2 ^ 24 + byte_at data (off + 1) * 2 ^ 16
  + byte_at data (off + 2) * 2 ^ 8 + byte_at data (off + 3).

(** The [k]-th 32-byte record of the entry table of the section at
    [section_offset]; the first 32 bytes of the section are its header. *)
Definition record_offset (section_offset : Z) (k : nat) : Z :=
  section_offset + 32 + 32 * Z.of_nat k.

Definition record_index (data : bytes) (section_offset : Z) (k : nat) : Z :=
  be_u32_at data (record_offset section_offset k).

Definition record_pointer (data : bytes) (section_offset : Z) (k : nat) : Z :=
  be_u32_at data (record_offset section_offset k + 8).

Definition record_absolute (data : bytes) (section_offset : Z) (k : nat) : Z :=
  section_offset + record_pointer data section_offset k.

Definition record_entry (data : bytes) (section_offset : Z) (k : nat) : entry :=
  (record_index data section_offset k, record_absolute data section_offset k).

(** Record [k] ends the table: it would extend past the container, its
    index is 0 or above 0xFFFF, or its absolute offset is not below the
    container length. *)
Definition record_stops (data : bytes) (section_offset : Z) (k : nat) : bool :=
  negb (record_offset section_offset k + 32 <=? len data)
  || (record_index data section_offset k =? 0)
  || (record_index data section_offset k >? 0xFFFF)
  || (record_absolute data section_offset k >=? len data).

(** A slice request lies inside a record of the table that fits in the
    container. *)
Definition read_in_record (data : bytes) (section_offset : Z) (r : read) : Prop :=
  exists k : nat,
    record_offset section_offset k + 32 <= len data /\
    record_offset section_offset k <= fst r /\
    fst r < snd r /\
    snd r <= record_offset section_offset k + 32.

(** Position [p] is one of those a slice request [r] reads from a
    sequence of length [n], after Python has adjusted the bounds. *)
Definition touched (n : Z) (r : read) (p : Z) : Prop :=
  clamp_index n (fst r) <= p < clamp_index n (snd r).

(** The payload with its last byte dropped when the length is odd. *)
Definition truncate_even (payload : bytes) : bytes :=
  firstn (2 * (length payload / 2)) payload.

(** The two bytes of every 16-bit word exchanged; a trailing single byte
    stays. *)
Fixpoint swap_words (bs : bytes) : bytes :=
  match bs with
  | b0 :: b1 :: rest => b1 :: b0 :: swap_words rest
  | _ => bs
  end.

(** A 16-bit two's complement value from its high and low byte. *)
Definition int16 (hi lo : byte) : Z :=
  let u := byte_val hi * 256 + byte_val lo in
  if u <? 32768 then u else u - 65536.

(** The samples of a buffer of big-endian signed 16-bit words. *)
Fixpoint samples_be (bs : bytes) : list Z :=
  match bs with
  | b0 :: b1 :: rest => int16 b0 b1 :: samples_be rest
  | _ => []
  end.

(** The samples of a buffer of little-endian signed 16-bit words. *)
Fixpoint samples_le (bs : bytes) : list Z :=
  match bs with
  | b0 :: b1 :: rest => int16 b1 b0 :: samples_le rest
  | _ => []
  end.

(** The ASCII characters of a byte string, in order; the other bytes are
    left out. *)
Definition ascii_chars (bs : bytes) : str :=
  map Byte.to_N (filter (fun b => (Byte.to_N b <? 128)%N) bs).

(** [t] is [s] without its leading and trailing whitespace: what is cut
    off at both ends is whitespace only, and [t] neither starts nor ends
    with whitespace. *)
Definition trimmed_of `{UnicodeDB} (s t : str) : Prop :=
  exists pre post : str,
    s = pre ++ t ++ post /\
    Forall (fun c => isspace c = true) pre /\
    Forall (fun c => isspace c = true) post /\
    (forall c rest, t = c :: rest -> isspace c = false) /\
    (forall front c, t = front ++ [c] -> isspace c = false).

(** A [bytes] literal written as a Rocq string. *)
Definition pybytes (s : string) : bytes := map byte_of_ascii (list_ascii_of_string s).

(** What the writer is called with for one entry. *)
Record wav_job : Type := {
  job_name : str;
  job_channels : Z;
  job_rate : Z;
  job_frames : bytes
}.

(** Steps a to f of the orchestrator for the entry [(idx, start)] at
    position [i]: the extent, the header, the payload, its transformation
    and the file name.  [None] when the entry is skipped or fails before
    the writer is reached. *)
Definition prepare_entry `{UnicodeDB}
  (data : bytes) (entries : list entry) (i idx start : Z) : option wav_job :=
  match entry_size data entries i start with
  | Raise _ => None
  | Ok extent =>
      if extent <? 80 then None
      else
        let header := slice data start (start + 80) in
        match extract_sample_name header, parse_audio_header header with
        | Ok name, Ok (sample_rate, channels) =>
            let payload := slice data (start + 80) (start + extent) in
            if len payload <? 2 then None
            else
              match process_pcm_data payload channels with
              | Raise _ => None
              | Ok pcm_bytes =>
                  Some {| job_name := format_03d idx ++ pystr "_"
                                      ++ sanitize_filename name idx ++ pystr ".wav";
                          job_channels := channels;
                          job_rate := sample_rate;
                          job_frames := pcm_bytes |}
              end
        | _, _ => None
        end
  end.

(** The writer invoked on a job, with 2-byte samples. *)
Definition write_job `{Writer} (job : wav_job) : world -> world * result unit :=
  wave_write (job_name job) (job_channels job) 2 (job_rate job) (job_frames job).

(** The entry at position [i] is successfully written from world [w]:
    the statements under [try:] run to their end. *)
Definition entry_written `{UnicodeDB} `{Writer}
  (data : bytes) (entries : list entry) (i : Z) (e : entry) (w : world) : bool :=
  match snd (try_entry data entries i (fst e) (snd e) w) with
  | Ok true => true
  | _ => false
  end.

(** The world after the attempt on the entry at position [i]. *)
Definition world_after_entry `{UnicodeDB} `{Writer}
  (data : bytes) (entries : list entry) (i : Z) (e : entry) (w : world) : world :=
  fst (try_entry data entries i (fst e) (snd e) w).

(** The number of entries of [rest] (positions [i], [i + 1], ...) that are
    successfully written, each attempted in the world its predecessors
    left. *)
Fixpoint written_count `{UnicodeDB} `{Writer}
  (data : bytes) (entries : list entry) (i : Z) (rest : list entry) (w : world) : Z :=
  match rest with
  | [] => 0
  | e :: rest' =>
      (if entry_written data entries i e w then 1 else 0)
      + written_count data entries (i + 1) rest'
          (world_after_entry data entries i e w)
  end.

(** The world after every entry of [rest] has been attempted in turn. *)
Fixpoint world_after `{UnicodeDB} `{Writer}
  (data : bytes) (entries : list entry) (i : Z) (rest : list entry) (w : world)
  : world :=
  match rest with
  | [] => w
  | e :: rest' =>
      world_after data entries (i + 1) rest'
        (world_after_entry data entries i e w)
  end.

(** ** Sample data *)

(** The character database cut down to ASCII: no other code point is
    alphanumeric or whitespace. *)
Definition ascii_only : UnicodeDB :=
  {| unicode_isalnum := fun _ => false; unicode_isspace := fun _ => false |}.

(** A writer that records its jobs in order and never raises. *)
Definition recording_writer : Writer :=
  {| world := list wav_job;
     wave_write := fun name channels sampwidth rate frames w =>
       (w ++ [{| job_name := name; job_channels := channels;
                 job_rate := rate; job_frames := frames |}], Ok tt);
     mkdir := fun w => (w, Ok tt) |}.

(** A writer on a full disk: every write raises [OSError]. *)
Definition failing_writer : Writer :=
  {| world := list wav_job;
     wave_write := fun name channels sampwidth rate frames w => (w, Raise OSError);
     mkdir := fun w => (w, Ok tt) |}.

(** A header whose name field is a NUL, a space and then ["Kick"]. *)
Definition header_nul_space_kick : bytes :=
  x00 :: pybytes " Kick" ++ repeat x00 74.

(** A header whose name field is ["Kick"], a space and NUL padding. *)
Definition header_kick_space_nul : bytes :=
  pybytes "Kick " ++ repeat x00 75.

(** An 80-byte sample header: the name field padded with NUL to 16 bytes,
    the sample rate at 0x36 and the channel marker at 0x49. *)
Definition sample_header (name : string) (rate_hi rate_lo marker : byte) : bytes :=
  pybytes name ++ repeat x00 (16 - String.length name)
  ++ repeat x00 38 ++ [rate_hi; rate_lo]
  ++ repeat x00 17 ++ [marker] ++ repeat x00 6.

(** A container with the section at 0xC8 and a table of two records:
    index 1 points at a mono sample with a 6-byte payload (at 328), index 2
    at a stereo sample with a 5-byte payload (at 414); the third record, all
    zero, ends the table. *)
Definition sample_container : bytes :=
  repeat x00 0xC4 ++ [x00; x00; x00; xc8]
  ++ repeat x00 32
  ++ [x00; x00; x00; x01] ++ repeat x00 4 ++ [x00; x00; x00; x80] ++ repeat x00 20
  ++ [x00; x00; x00; x02] ++ repeat x00 4 ++ [x00; x00; x00; xd6] ++ repeat x00 20
  ++ repeat x00 32
  ++ sample_header "Snare" x00 x00 x00 ++ [x01; x02; x03; x04; x05; x06]
  ++ sample_header "Kick!! #1" x56 x22 x02 ++ [x01; x02; x03; x04; x05].

(** ** Reading a formatted index back *)

(** The decimal numeral a run of digit characters spells; reading stops
    at the first character that is not a digit. *)
Fixpoint digits_uint (s : str) : Decimal.uint :=
  match s with
  | [] => Decimal.Nil
  | c :: s' =>
      if (c =? 48)%N then Decimal.D0 (digits_uint s')
      else if (c =? 49)%N then Decimal.D1 (digits_uint s')
      else if (c =? 50)%N then Decimal.D2 (digits_uint s')
      else if (c =? 51)%N then Decimal.D3 (digits_uint s')
      else if (c =? 52)%N then Decimal.D4 (digits_uint s')
      else if (c =? 53)%N then Decimal.D5 (digits_uint s')
      else if (c =? 54)%N then Decimal.D6 (digits_uint s')
      else if (c =? 55)%N then Decimal.D7 (digits_uint s')
      else if (c =? 56)%N then Decimal.D8 (digits_uint s')
      else if (c =? 57)%N then Decimal.D9 (digits_uint s')
      else Decimal.Nil
  end.

(** The integer a formatted index spells: an optional ["-"], then decimal
    digits, leading zeros allowed. *)
Definition format_value (s : str) : Z :=
  match s with
  | c :: s' =>
      if (c =? HYPHEN)%N then - Z.of_N (N.of_uint (digits_uint s'))
      else Z.of_N (N.of_uint (digits_uint s))
  | [] => 0
  end.

(** A decimal digit character. *)
Definition is_digit (c : N) : bool := in_range 48 57 c.

(** ** The fields of a sample, read in the container *)

(** The channel count of the sample at [start]: its marker byte is at
    [start + 0x49]. *)
Definition entry_channels (data : bytes) (start : Z) : Z :=
  if byte_at data (start + 0x49) =? 2 then 2 else 1.

(** The sample rate of the sample at [start]: the big-endian 16-bit
    integer at [start + 0x36], or 44100 when that is 0. *)
Definition entry_rate (data : bytes) (start : Z) : Z :=
  if be_u16_at data (start + 0x36) =? 0 then 44100
  else be_u16_at data (start + 0x36).

(** The name of the file an entry is written to. *)
Definition wav_file_name (idx : Z) (clean_name : str) : str :=
  format_03d idx ++ pystr "_" ++ clean_name ++ pystr ".wav".


(** * Properties *)

(** ** Python sequences *)

Lemma len_nonneg {A : Type} (l : list A) : 0 <= len l.
Proof. unfold len. lia. Qed.

(** Bounds inside the sequence are taken as they are. *)
Lemma clamp_index_inside (n i : Z) : 0 <= i <= n -> clamp_index n i = i.
Proof. unfold clamp_index. intros Hi. destruct (Z.ltb_spec i 0); lia. Qed.

(** An adjusted bound is a position of the sequence, or its length. *)
Lemma clamp_index_range (n i : Z) : 0 <= n -> 0 <= clamp_index n i <= n.
Proof. unfold clamp_index. intros Hn. destruct (Z.ltb_spec i 0); lia. Qed.

Lemma slice_inside {A : Type} (l : list A) (i j : Z) :
  0 <= i -> i <= j -> j <= len l ->
  slice l i j = firstn (Z.to_nat (j - i)) (skipn (Z.to_nat i) l).
Proof.
  intros Hi Hij Hj. unfold slice.
  rewrite !clamp_index_inside by lia. reflexivity.
Qed.

Lemma firstn_S_skipn {A : Type} (d : A) (n i : nat) (l : list A) :
  (i < length l)%nat ->
  firstn (S n) (skipn i l) = nth i l d :: firstn n (skipn (S i) l).
Proof.
  revert l. induction i as [|i IH]; intros [|a l] Hlt; simpl in *; try lia.
  - reflexivity.
  - apply IH. lia.
Qed.

Lemma byte_val_range (b : byte) : 0 <= byte_val b <= 255.
Proof. unfold byte_val. pose proof (Byte.to_N_bounded b). lia. Qed.

(** Two bytes taken by a slice decode to the big-endian 16-bit integer at
    that place. *)
Lemma int_from_bytes_big_u16 (data : bytes) (off : Z) :
  0 <= off -> off + 2 <= len data ->
  int_from_bytes_big (slice data off (off + 2)) = be_u16_at data off.
Proof.
  intros H0 Hlen. unfold len in Hlen.
  rewrite slice_inside by (unfold len; lia).
  replace (Z.to_nat (off + 2 - off)) with 2%nat by lia.
  rewrite !(firstn_S_skipn x00) by lia.
  unfold int_from_bytes_big, be_u16_at, byte_at. simpl fold_left.
  replace (Z.to_nat (off + 1)) with (S (Z.to_nat off)) by lia.
  lia.
Qed.

(** Four bytes taken by a slice decode to the big-endian 32-bit integer at
    that place. *)
Lemma int_from_bytes_big_u32 (data : bytes) (off : Z) :
  0 <= off -> off + 4 <= len data ->
  int_from_bytes_big (slice data off (off + 4)) = be_u32_at data off.
Proof.
  intros H0 Hlen. unfold len in Hlen.
  rewrite slice_inside by (unfold len; lia).
  replace (Z.to_nat (off + 4 - off)) with 4%nat by lia.
  rewrite !(firstn_S_skipn x00) by lia.
  unfold int_from_bytes_big, be_u32_at, byte_at. simpl fold_left.
  replace (Z.to_nat (off + 1)) with (S (Z.to_nat off)) by lia.
  replace (Z.to_nat (off + 2)) with (S (S (Z.to_nat off))) by lia.
  replace (Z.to_nat (off + 3)) with (S (S (S (Z.to_nat off)))) by lia.
  lia.
Qed.

Lemma be_u32_at_nonneg (data : bytes) (off : Z) : 0 <= be_u32_at data off.
Proof.
  unfold be_u32_at, byte_at.
  repeat match goal with
         | |- context [byte_val ?b] =>
             let H := fresh in
             pose proof (byte_val_range b) as H;
             generalize dependent (byte_val b); intros
         end.
  lia.
Qed.

Lemma int_from_bytes_big_nonneg (bs : bytes) : 0 <= int_from_bytes_big bs.
Proof.
  unfold int_from_bytes_big.
  assert (Hacc : forall acc, 0 <= acc ->
            0 <= fold_left (fun acc b => acc * 256 + byte_val b) bs acc).
  { induction bs as [| b bs IH]; intros acc Hacc; simpl; [exact Hacc |].
    apply IH. pose proof (byte_val_range b). lia. }
  apply Hacc. lia.
Qed.

(** ** Container Locator *)

(** C5. For every container, [find_dwav_section] returns [None] exactly
    when the container is shorter than 0xC8 bytes or the big-endian 32-bit
    integer at bytes [[0xC4, 0xC8)] is at least the container length;
    otherwise it returns that integer, which is then a position strictly
    below the container length.  The result is a function of the bytes
    alone. *)
Theorem find_dwav_section_spec (data : bytes) :
  (find_dwav_section data = None <->
     len data < 0xC8 \/ be_u32_at data 0xC4 >= len data) /\
  (~ (len data < 0xC8 \/ be_u32_at data 0xC4 >= len data) <->
     find_dwav_section data = Some (be_u32_at data 0xC4)) /\
  (forall section_offset,
     find_dwav_section data = Some section_offset ->
     section_offset = be_u32_at data 0xC4 /\ 0 <= section_offset < len data).
Proof.
  unfold find_dwav_section.
  destruct (Z.ltb_spec (len data) 0xC8) as [Hshort | Hlong].
  - repeat split; intros; try discriminate; try tauto; lia.
  - change 0xC8 with (0xC4 + 4) at 2.
    rewrite int_from_bytes_big_u32 by lia.
    pose proof (be_u32_at_nonneg data 0xC4) as Hpos.
    destruct (Z.geb_spec (be_u32_at data 0xC4) (len data)) as [Hge | Hlt].
    + repeat split; intros; try discriminate; try tauto; lia.
    + repeat split; intros; try discriminate; try tauto; try lia;
        match goal with H : Some _ = Some _ |- _ => injection H as <- end;
        try reflexivity; lia.
Qed.

(** ** Entry Table Walker *)

Lemma record_offset_S (s : Z) (k : nat) :
  record_offset s (S k) = record_offset s k + 32.
Proof. unfold record_offset. lia. Qed.

(** Loop invariant for the log: while [offset] is the start of a record
    of the table, every slice taken lies inside a record that fits. *)
Lemma walk_reads_in_record (data : bytes) (s offset : Z)
  (entries : list entry) (log : list read) :
  forall k : nat,
    offset = record_offset s k ->
    Forall (read_in_record data s) log ->
    Forall (read_in_record data s) (snd (walk data s offset entries log)).
Proof.
  funelim (walk data s offset entries log); intros k Hk Hlog.
  - assert (Hidx : read_in_record data dwav_offset (offset, offset + 4)).
    { exists k. simpl. lia. }
    assert (Hptr : read_in_record data dwav_offset (offset + 8, offset + 12)).
    { exists k. simpl. lia. }
    cbv zeta.
    destruct ((_ =? 0) || (_ >? 0xFFFF)); simpl.
    + apply Forall_app; auto.
    + destruct (_ >=? len data); simpl.
      * repeat (apply Forall_app; split); auto.
      * apply (H (S k)).
        -- rewrite record_offset_S. lia.
        -- repeat (apply Forall_app; split); auto.
  - exact Hlog.
Qed.

(** A slice inside a fitting record reads positions of the container
    only. *)
Lemma read_in_record_bounds (data : bytes) (s : Z) (r : read) :
  read_in_record data s r ->
  s + 32 <= fst r /\ snd r <= len data /\
  forall p, touched (len data) r p -> 0 <= p < len data.
Proof.
  intros [k (Hfit & Hlo & Hne & Hhi)].
  assert (Hk : s + 32 <= record_offset s k) by (unfold record_offset; lia).
  repeat split; try lia.
  - pose proof (clamp_index_range (len data) (fst r) (len_nonneg data)).
    unfold touched in H. lia.
  - pose proof (clamp_index_range (len data) (snd r) (len_nonneg data)).
    unfold touched in H. lia.
Qed.

(** C2. For every container and section offset, every slice of the
    container that [parse_audio_entries] takes lies inside a 32-byte record
    that starts at [section_offset + 32 + 32 * k] and satisfies
    [offset + 32 <= len(data)]; so the slice ends at or before the
    container length and every position it reads is strictly below it. *)
Theorem parse_audio_entries_reads_in_bounds (data : bytes) (section_offset : Z) :
  Forall
    (fun r : read =>
       read_in_record data section_offset r /\
       section_offset + 32 <= fst r /\
       snd r <= len data /\
       forall p, touched (len data) r p -> 0 <= p < len data)
    (parse_audio_entries_reads data section_offset).
Proof.
  unfold parse_audio_entries_reads.
  assert (Hrec : Forall (read_in_record data section_offset)
                   (snd (walk data section_offset (section_offset + 32) [] []))).
  { apply (walk_reads_in_record data section_offset _ [] [] 0%nat).
    - unfold record_offset. lia.
    - constructor. }
  eapply Forall_impl; [| exact Hrec].
  intros r Hr. split; [exact Hr |]. now apply read_in_record_bounds.
Qed.

(** On a non-negative section offset the two fields the loop decodes are
    the index and the pointer of the record. *)
Lemma walk_fields (data : bytes) (s : Z) (k : nat) :
  0 <= s ->
  record_offset s k + 32 <= len data ->
  int_from_bytes_big
    (slice data (record_offset s k) (record_offset s k + 4))
  = record_index data s k /\
  int_from_bytes_big
    (slice data (record_offset s k + 8) (record_offset s k + 12))
  = record_pointer data s k.
Proof.
  intros Hs Hfit.
  assert (0 <= record_offset s k) by (unfold record_offset; lia).
  split.
  - apply int_from_bytes_big_u32; lia.
  - replace (record_offset s k + 12) with (record_offset s k + 8 + 4) by lia.
    apply int_from_bytes_big_u32; lia.
Qed.

(** Loop invariant for the entries: from record [k] on, the loop appends
    the entries of the records up to the first one that stops the scan. *)
Lemma walk_entries_spec (data : bytes) (s offset : Z)
  (entries : list entry) (log : list read) :
  0 <= s ->
  forall k : nat,
    offset = record_offset s k ->
    exists m : nat,
      fst (walk data s offset entries log)
      = entries ++ map (record_entry data s) (seq k m) /\
      record_stops data s (k + m) = true /\
      forall j, (k <= j < k + m)%nat -> record_stops data s j = false.
Proof.
  funelim (walk data s offset entries log); intros Hs k Hk.
  - subst offset.
    destruct (walk_fields data dwav_offset k Hs l) as [Eidx Eptr].
    cbv zeta. rewrite Eidx, Eptr.
    fold (record_absolute data dwav_offset k).
    destruct ((record_index data dwav_offset k =? 0)
              || (record_index data dwav_offset k >? 0xFFFF)) eqn:Hbad.
    + exists 0%nat. simpl. rewrite app_nil_r, Nat.add_0_r.
      repeat split; [| intros; lia].
      unfold record_stops. rewrite <- !orb_assoc, (orb_assoc (_ =? 0)), Hbad.
      now rewrite orb_true_r.
    + destruct (record_absolute data dwav_offset k >=? len data) eqn:Hout.
      * exists 0%nat. simpl. rewrite app_nil_r, Nat.add_0_r.
        repeat split; [| intros; lia].
        unfold record_stops. rewrite Hout. now rewrite orb_true_r.
      * destruct (H Hs (S k)) as (m & Hres & Hstop & Hgo).
        { rewrite record_offset_S. reflexivity. }
        exists (S m). repeat split.
        -- rewrite Eidx, Eptr in Hres.
           fold (record_absolute data dwav_offset k) in Hres.
           rewrite Hres, <- app_assoc. reflexivity.
        -- rewrite <- Hstop. f_equal. lia.
        -- intros j Hj. destruct (Nat.eq_dec j k) as [-> | Hne].
           ++ unfold record_stops.
              rewrite <- !orb_assoc, (orb_assoc (_ =? 0)), Hbad, Hout.
              destruct (Z.leb_spec (record_offset dwav_offset k + 32) (len data));
                [reflexivity | lia].
           ++ apply Hgo. lia.
  - intros. subst offset. exists 0%nat. simpl. rewrite app_nil_r, Nat.add_0_r.
    repeat split; [| intros; lia].
    unfold record_stops.
    destruct (Z.leb_spec (record_offset dwav_offset k + 32) (len data));
      [lia | reflexivity].
Qed.

(** Loop invariant for the checks: whatever the section offset, an entry
    is appended only after its index and absolute offset have passed the
    two tests. *)
Lemma walk_entries_valid (data : bytes) (s offset : Z)
  (entries : list entry) (log : list read) :
  Forall (fun e : entry => 1 <= fst e <= 0xFFFF /\ snd e < len data) entries ->
  Forall (fun e : entry => 1 <= fst e <= 0xFFFF /\ snd e < len data)
    (fst (walk data s offset entries log)).
Proof.
  funelim (walk data s offset entries log); intros Hvalid.
  - cbv zeta.
    pose proof (int_from_bytes_big_nonneg (slice data offset (offset + 4))) as Hidx.
    destruct ((_ =? 0) || (_ >? 0xFFFF)) eqn:Hbad; [exact Hvalid |].
    destruct (_ >=? len data) eqn:Hout; [exact Hvalid |].
    apply H. apply Forall_app. split; [exact Hvalid |].
    constructor; [| constructor]. simpl.
    apply orb_false_elim in Hbad. lia.
  - exact Hvalid.
Qed.

(** C3. For every container and section offset, every entry
    [parse_audio_entries] emits has [1 <= index <= 0xFFFF] and an absolute
    offset below the container length.  For a section offset that is a
    position (not negative), the output is the sequence of
    [(index, section_offset + relative_pointer)] pairs of the first [n]
    consecutive records, where record [n] is the first that stops the scan
    (index 0 or above 0xFFFF, absolute offset not below the container
    length, or a record that would extend past the container); no record
    at or after the stopping point is included. *)
Theorem parse_audio_entries_spec (data : bytes) (section_offset : Z) :
  Forall (fun e : entry => 1 <= fst e <= 0xFFFF /\ snd e < len data)
    (parse_audio_entries data section_offset) /\
  (0 <= section_offset ->
   exists n : nat,
     parse_audio_entries data section_offset
     = map (record_entry data section_offset) (seq 0 n) /\
     record_stops data section_offset n = true /\
     (forall k, (k < n)%nat -> record_stops data section_offset k = false) /\
     Forall (fun e : entry => 0 <= snd e)
       (parse_audio_entries data section_offset)).
Proof.
  split.
  { unfold parse_audio_entries. apply walk_entries_valid. constructor. }
  intros Hs. unfold parse_audio_entries.
  destruct (walk_entries_spec data section_offset (section_offset + 32) [] []
              Hs 0%nat) as (n & Hres & Hstop & Hgo).
  { unfold record_offset. lia. }
  simpl in Hres, Hstop.
  exists n. repeat split; try assumption.
  - intros k Hk. apply Hgo. lia.
  - rewrite Hres. apply Forall_forall. intros e He.
    apply in_map_iff in He. destruct He as (k & <- & Hin).
    pose proof (be_u32_at_nonneg data (record_offset section_offset k + 8)).
    unfold record_entry, record_absolute, record_pointer. simpl. lia.
Qed.

(** ** Sample Header Parser *)

Lemma index_inside {A : Type} (d : A) (l : list A) (i : Z) :
  0 <= i < len l -> index l i = Ok (nth (Z.to_nat i) l d).
Proof.
  intros Hi. unfold index.
  assert (Hneg : (i <? 0) = false) by lia.
  assert (Hin : (len l <=? i) = false) by lia.
  rewrite Hneg. cbv zeta. rewrite Hneg, Hin. simpl.
  destruct (nth_error l (Z.to_nat i)) eqn:Hnth.
  - now rewrite (nth_error_nth _ _ d Hnth).
  - apply nth_error_None in Hnth. unfold len in Hi. lia.
Qed.

(** C6. For every 80-byte header, [parse_audio_header] returns the
    big-endian 16-bit unsigned integer at header bytes [[0x36, 0x38)] as
    the sample rate, with 44100 in place of a decoded 0 (so the rate is
    never 0), and returns 2 channels when the byte at offset 0x49 is 2
    and 1 channel for any other value of that byte. *)
Theorem parse_audio_header_spec (header : bytes) :
  len header = 80 ->
  exists sample_rate channels : Z,
    parse_audio_header header = Ok (sample_rate, channels) /\
    sample_rate
    = (if be_u16_at header 0x36 =? 0 then 44100 else be_u16_at header 0x36) /\
    sample_rate <> 0 /\
    channels = (if byte_at header 0x49 =? 2 then 2 else 1).
Proof.
  intros Hlen. unfold parse_audio_header.
  change 0x38 with (0x36 + 2).
  rewrite int_from_bytes_big_u16 by lia.
  rewrite (index_inside x00) by lia. simpl bind.
  do 2 eexists. split; [reflexivity |].
  fold (byte_at header 0x49).
  repeat split.
  destruct (Z.eqb_spec (be_u16_at header 0x36) 0); lia.
Qed.

(** ** Payload Transformer *)

(** Induction over a byte buffer two bytes at a time. *)
Lemma list_pair_ind {A : Type} (P : list A -> Prop) :
  P [] ->
  (forall a, P [a]) ->
  (forall a b l, P l -> P (a :: b :: l)) ->
  forall l, P l.
Proof.
  intros Hnil Hone Hstep.
  fix IH 1. intros [| a [| b l]].
  - exact Hnil.
  - apply Hone.
  - apply Hstep, IH.
Qed.

(** On a buffer of even length the array is built and its byte-swapped
    image is the buffer with the bytes of every word exchanged. *)
Lemma array_h_even (data : bytes) :
  Nat.even (length data) = true ->
  exists a, array_h data = Ok a /\ tobytes (byteswap a) = swap_words data.
Proof.
  induction data as [| b | b0 b1 rest IH] using list_pair_ind; intros Heven.
  - exists []. split; reflexivity.
  - discriminate.
  - destruct (IH Heven) as (a & Ha & Hswap).
    exists ((b0, b1) :: a). simpl. rewrite Ha. split; [reflexivity |].
    simpl in Hswap |- *. now rewrite Hswap.
Qed.

(** On a buffer of odd length the array constructor raises. *)
Lemma array_h_odd (data : bytes) :
  Nat.even (length data) = false -> array_h data = Raise ValueError.
Proof.
  induction data as [| b | b0 b1 rest IH] using list_pair_ind; intros Hodd.
  - discriminate.
  - reflexivity.
  - simpl. now rewrite (IH Hodd).
Qed.

Lemma swap_words_involutive (bs : bytes) : swap_words (swap_words bs) = bs.
Proof.
  induction bs as [| b | b0 b1 rest IH] using list_pair_ind; simpl; congruence.
Qed.

Lemma swap_words_length (bs : bytes) : length (swap_words bs) = length bs.
Proof.
  induction bs as [| b | b0 b1 rest IH] using list_pair_ind; simpl; congruence.
Qed.

(** Read as little-endian, the swapped buffer holds the samples the
    original holds read as big-endian, in the same order. *)
Lemma samples_le_swap_words (bs : bytes) :
  samples_le (swap_words bs) = samples_be bs.
Proof.
  induction bs as [| b | b0 b1 rest IH] using list_pair_ind; simpl; congruence.
Qed.

Lemma samples_be_length (bs : bytes) :
  length (samples_be bs) = (length bs / 2)%nat.
Proof.
  induction bs as [| b | b0 b1 rest IH] using list_pair_ind.
  - reflexivity.
  - reflexivity.
  - cbn [samples_be length]. rewrite IH.
    change (S (S (length rest))) with (1 * 2 + length rest)%nat.
    rewrite Nat.div_add_l by lia. lia.
Qed.

Lemma truncate_even_length (payload : bytes) :
  length (truncate_even payload) = (2 * (length payload / 2))%nat.
Proof.
  unfold truncate_even. rewrite length_firstn.
  pose proof (Nat.div_mod_eq (length payload) 2). lia.
Qed.

Lemma truncate_even_even (payload : bytes) :
  Nat.even (length (truncate_even payload)) = true.
Proof.
  rewrite truncate_even_length. apply Nat.even_spec. now exists (length payload / 2)%nat.
Qed.

(** The first statement of [process_pcm_data] is the truncation to even
    length. *)
Lemma drop_odd_byte (pcm_data : bytes) :
  (if negb (len pcm_data mod 2 =? 0) then slice pcm_data 0 (-1) else pcm_data)
  = truncate_even pcm_data.
Proof.
  unfold truncate_even, len.
  pose proof (Nat.div_mod_eq (length pcm_data) 2) as Hdm.
  pose proof (Nat.mod_upper_bound (length pcm_data) 2 ltac:(lia)) as Hub.
  change 2 with (Z.of_nat 2) at 1. rewrite <- Nat2Z.inj_mod.
  destruct (Z.eqb_spec (Z.of_nat (length pcm_data mod 2)) 0) as [Heven | Hodd];
    cbn [negb].
  - replace (2 * (length pcm_data / 2))%nat with (length pcm_data) by lia.
    now rewrite firstn_all.
  - unfold slice, clamp_index, len. cbn [Z.ltb Z.compare skipn Z.to_nat].
    rewrite Z.max_r, Z.min_l by lia.
    f_equal. lia.
Qed.

(** C7. Round trip for [channels = 2]: the output is the even-truncated
    payload with the two bytes of every 16-bit word exchanged, so
    exchanging them again gives back the truncated payload; the length is
    kept and the samples keep their number, order and value. *)
Theorem process_pcm_data_stereo_round_trip (payload : bytes) :
  exists out : bytes,
    process_pcm_data payload 2 = Ok out /\
    out = swap_words (truncate_even payload) /\
    swap_words out = truncate_even payload /\
    length out = length (truncate_even payload) /\
    samples_le out = samples_be (truncate_even payload).
Proof.
  unfold process_pcm_data. rewrite drop_odd_byte. simpl (2 =? 1).
  destruct (array_h_even _ (truncate_even_even payload)) as (a & Ha & Hswap).
  rewrite Ha. simpl bind. rewrite Hswap.
  eexists. split; [reflexivity |]. split; [reflexivity |].
  rewrite swap_words_involutive, swap_words_length, samples_le_swap_words.
  repeat split.
Qed.

(** With [channels = 1] the array is built from the first half of the
    even-truncated payload, which is the first [length / 2] bytes of the
    payload itself. *)
Lemma process_pcm_data_mono (payload : bytes) :
  process_pcm_data payload 1
  = bind (array_h (firstn (length payload / 2) payload))
      (fun pcm_array => Ok (tobytes (byteswap pcm_array))).
Proof.
  unfold process_pcm_data. rewrite drop_odd_byte. simpl (1 =? 1).
  assert (Hhalf : len (truncate_even payload) / 2
                  = Z.of_nat (length payload / 2)).
  { unfold len. rewrite truncate_even_length.
    rewrite Nat2Z.inj_mul, Z.mul_comm. now rewrite Z.div_mul by lia. }
  assert (Hslice : slice (truncate_even payload) 0 (len (truncate_even payload) / 2)
                   = firstn (length payload / 2) payload).
  { rewrite Hhalf, slice_inside; try lia.
    - rewrite Z.sub_0_r, Nat2Z.id. simpl skipn.
      unfold truncate_even. rewrite firstn_firstn. f_equal. lia.
    - unfold len. rewrite truncate_even_length. lia. }
  now rewrite Hslice.
Qed.

(** The defect behind C1: with [channels = 1], a payload whose half has an
    odd number of bytes makes [array.array('h', ...)] raise. *)
Lemma process_pcm_data_mono_odd_half (payload : bytes) :
  Nat.even (length payload / 2) = false ->
  process_pcm_data payload 1 = Raise ValueError.
Proof.
  intros Hodd. rewrite process_pcm_data_mono, array_h_odd; [reflexivity |].
  rewrite length_firstn.
  pose proof (Nat.div_mod_eq (length payload) 2).
  now replace (Nat.min (length payload / 2) (length payload))
    with (length payload / 2)%nat by lia.
Qed.

(** With [channels = 1] the outcome depends on the parity of half the
    payload length alone: an even half is byte-swapped and returned, an
    odd half raises. *)
Theorem process_pcm_data_mono_cases (payload : bytes) :
  process_pcm_data payload 1
  = if Nat.even (length payload / 2)
    then Ok (swap_words (firstn (length payload / 2) payload))
    else Raise ValueError.
Proof.
  destruct (Nat.even (length payload / 2)) eqn:Hparity.
  - rewrite process_pcm_data_mono.
    destruct (array_h_even (firstn (length payload / 2) payload))
      as (a & Ha & Hswap).
    { rewrite length_firstn.
      pose proof (Nat.div_mod_eq (length payload) 2).
      now replace (Nat.min (length payload / 2) (length payload))
        with (length payload / 2)%nat by lia. }
    rewrite Ha. simpl. now rewrite Hswap.
  - now apply process_pcm_data_mono_odd_half.
Qed.

(** C1 (failing input). The two-byte payload [00 01] with [channels = 1]:
    the half kept is one byte long and the array constructor raises
    [ValueError], so [process_pcm_data] does not return a buffer. *)
Theorem process_pcm_data_mono_two_bytes_raises :
  process_pcm_data [x00; x01] 1 = Raise ValueError.
Proof. reflexivity. Qed.

(** C8. For a payload of [2 * N] big-endian 16-bit samples ([4 * N]
    bytes, written as its two halves) and [channels = 1], the output is
    the first half with the bytes of every word exchanged: exactly [N]
    little-endian samples, equal to the [N] big-endian samples of the
    first half; the second half does not influence the output. *)
Theorem process_pcm_data_mono_first_half (N : nat) (first second : bytes) :
  length first = (2 * N)%nat ->
  length second = (2 * N)%nat ->
  process_pcm_data (first ++ second) 1 = Ok (swap_words first) /\
  length (samples_le (swap_words first)) = N /\
  samples_le (swap_words first) = samples_be first /\
  (forall second' : bytes,
     length second' = (2 * N)%nat ->
     process_pcm_data (first ++ second') 1
     = process_pcm_data (first ++ second) 1).
Proof.
  intros Hfirst Hsecond.
  assert (Hmono : forall tail : bytes,
             length tail = (2 * N)%nat ->
             process_pcm_data (first ++ tail) 1 = Ok (swap_words first)).
  { intros tail Htail. rewrite process_pcm_data_mono.
    assert (Hhalf : (length (first ++ tail) / 2 = length first)%nat).
    { rewrite length_app, Hfirst, Htail.
      replace (2 * N + 2 * N)%nat with ((2 * N) * 2)%nat by lia.
      now rewrite Nat.div_mul by lia. }
    rewrite Hhalf, firstn_app, Nat.sub_diag, firstn_all, firstn_O, app_nil_r.
    destruct (array_h_even first) as (a & Ha & Hswap).
    { rewrite Hfirst. apply Nat.even_spec. now exists N. }
    rewrite Ha. simpl. now rewrite Hswap. }
  split; [now apply Hmono |].
  rewrite samples_le_swap_words, samples_be_length, Hfirst.
  split; [| split; [reflexivity |]].
  - rewrite Nat.mul_comm. now rewrite Nat.div_mul by lia.
  - intros second' Hlen. now rewrite !Hmono.
Qed.

(** ** Text *)

Section Text.
Context `{UnicodeDB}.

Lemma decode_ascii_ignore (bs : bytes) :
  decode_ascii Ignore bs = Ok (ascii_chars bs).
Proof.
  unfold ascii_chars.
  induction bs as [| b bs IH]; simpl; [reflexivity |].
  rewrite IH. now destruct (Byte.to_N b <? 128)%N.
Qed.

Lemma remove_char_not_in (c : N) (s : str) : ~ In c (remove_char c s).
Proof.
  unfold remove_char. intros Hin. apply filter_In in Hin.
  destruct Hin as [_ Hne]. now rewrite N.eqb_refl in Hne.
Qed.

(** What [lstrip] removes is a prefix of whitespace, and what is left does
    not start with whitespace. *)
Lemma lstrip_spec (s : str) :
  exists pre : str,
    s = pre ++ lstrip s /\
    Forall (fun c => isspace c = true) pre /\
    (forall c rest, lstrip s = c :: rest -> isspace c = false).
Proof.
  induction s as [| c s (pre & Hs & Hpre & Hhead)]; simpl.
  - exists []. repeat split; [constructor | discriminate].
  - destruct (isspace c) eqn:Hc.
    + exists (c :: pre). repeat split.
      * simpl. now rewrite <- Hs.
      * now constructor.
      * exact Hhead.
    + exists []. repeat split; [constructor |].
      intros c' rest [= <- _]. exact Hc.
Qed.

(** What [rstrip] removes is a suffix of whitespace, and what is left does
    not end with whitespace. *)
Lemma rstrip_spec (s : str) :
  exists post : str,
    s = rstrip s ++ post /\
    Forall (fun c => isspace c = true) post /\
    (forall front c, rstrip s = front ++ [c] -> isspace c = false).
Proof.
  unfold rstrip.
  destruct (lstrip_spec (rev s)) as (pre & Hs & Hpre & Hhead).
  exists (rev pre). repeat split.
  - rewrite <- rev_app_distr, <- Hs. now rewrite rev_involutive.
  - now apply Forall_rev.
  - intros front c Hlast. apply (Hhead c (rev front)).
    rewrite <- (rev_involutive (lstrip (rev s))), Hlast, rev_app_distr.
    reflexivity.
Qed.

(** [strip] trims: it implements [trimmed_of]. *)
Lemma strip_trimmed (s : str) : trimmed_of s (strip s).
Proof.
  unfold strip.
  destruct (lstrip_spec s) as (pre & Hs & Hpre & Hhead).
  destruct (rstrip_spec (lstrip s)) as (post & Ht & Hpost & Hlast).
  exists pre, post. repeat split; try assumption.
  - now rewrite <- Ht.
  - intros c rest Hc. apply (Hhead c (rest ++ post)).
    rewrite Ht at 1. now rewrite Hc.
Qed.

Lemma lstrip_all_space (s : str) :
  Forall (fun c => isspace c = true) s -> lstrip s = [].
Proof.
  induction 1 as [| c s Hc _ IH]; simpl; [reflexivity |]. now rewrite Hc.
Qed.

Lemma strip_all_space (s : str) :
  Forall (fun c => isspace c = true) s -> strip s = [].
Proof. intros Hs. unfold strip. now rewrite lstrip_all_space. Qed.

Lemma Forall_filter {A : Type} (P : A -> Prop) (f : A -> bool) (l : list A) :
  Forall P l -> Forall P (filter f l).
Proof.
  intros Hl. apply Forall_forall. intros x Hx. apply filter_In in Hx.
  rewrite Forall_forall in Hl. now apply Hl.
Qed.

Lemma filter_all {A : Type} (f : A -> bool) (l : list A) :
  Forall (fun x => f x = true) (filter f l).
Proof. apply Forall_forall. intros x Hx. now apply filter_In in Hx. Qed.

(** Trimming keeps a contiguous part, so it keeps any property of all the
    characters. *)
Lemma trimmed_of_Forall (P : N -> Prop) (s t : str) :
  trimmed_of s t -> Forall P s -> Forall P t.
Proof.
  intros (pre & post & -> & _) Hs.
  apply Forall_app in Hs. destruct Hs as [_ Hs].
  apply Forall_app in Hs. now destruct Hs.
Qed.

End Text.

(** ** Sample name *)

(** C10. [extract_sample_name] trims whitespace before it removes the NUL
    characters.  It never raises and the name it returns, the ASCII
    characters of the first 16 header bytes trimmed and then freed of NUL,
    never contains a NUL.  For some headers the name keeps whitespace at
    an end: with a NUL, a space and then ["Kick"] in the name field the
    name starts with a space, and with ["Kick"], a space and NUL padding
    it ends with one; trimming after the removal would have given
    ["Kick"] in both cases. *)
Theorem extract_sample_name_trims_before_nul_removal `{UnicodeDB} :
  (forall header : bytes,
     exists name : str,
       extract_sample_name header = Ok name /\
       name = remove_char NUL (strip (ascii_chars (slice header 0 16))) /\
       ~ In NUL name) /\
  (len header_nul_space_kick = 80 /\
   extract_sample_name header_nul_space_kick = Ok (pystr " Kick") /\
   isspace SPACE = true /\
   strip (remove_char NUL (ascii_chars (slice header_nul_space_kick 0 16)))
   = pystr "Kick") /\
  (len header_kick_space_nul = 80 /\
   extract_sample_name header_kick_space_nul = Ok (pystr "Kick ") /\
   strip (remove_char NUL (ascii_chars (slice header_kick_space_nul 0 16)))
   = pystr "Kick").
Proof.
  split; [| split].
  - intros header. unfold extract_sample_name.
    rewrite decode_ascii_ignore. simpl.
    eexists. split; [reflexivity |]. split; [reflexivity |].
    apply remove_char_not_in.
  - repeat split; reflexivity.
  - repeat split; reflexivity.
Qed.

(** ** File name sanitation *)

(** C9. [sanitize_filename] returns the name filtered to the alphanumeric
    characters, space, underscore and hyphen and then trimmed of
    whitespace; when the name is empty or nothing is left, it returns
    ["sample_"] followed by the index zero-padded to 3 digits.  So
    ["Kick!! #1"] gives ["Kick 1"], and an empty or whitespace-only name
    with index 7 gives ["sample_007"]. *)
Theorem sanitize_filename_spec `{UnicodeDB} (name : str) (idx : Z) :
  sanitize_filename name idx
  = (if is_empty (strip (filter keep_char name))
     then pystr "sample_" ++ format_03d idx
     else strip (filter keep_char name)) /\
  trimmed_of (filter keep_char name) (strip (filter keep_char name)) /\
  Forall (fun c => keep_char c = true) (strip (filter keep_char name)) /\
  (name = [] -> sanitize_filename name idx = pystr "sample_" ++ format_03d idx) /\
  (0 <= idx -> format_03d idx = zero_fill 3 (decimal (Z.to_N idx))) /\
  sanitize_filename (pystr "Kick!! #1") idx = pystr "Kick 1" /\
  sanitize_filename [] 7 = pystr "sample_007" /\
  (Forall (fun c => isspace c = true) name ->
   sanitize_filename name 7 = pystr "sample_007").
Proof.
  assert (Hmain : sanitize_filename name idx
                  = (if is_empty (strip (filter keep_char name))
                     then pystr "sample_" ++ format_03d idx
                     else strip (filter keep_char name))).
  { unfold sanitize_filename. destruct name as [| c name]; reflexivity. }
  split; [exact Hmain |].
  split; [apply strip_trimmed |].
  split; [eapply trimmed_of_Forall; [apply strip_trimmed | apply filter_all] |].
  split; [now intros -> |].
  split.
  { intros Hidx. unfold format_03d.
    assert (Hneg : (idx <? 0) = false) by lia.
    rewrite Hneg, Z.abs_eq by lia. reflexivity. }
  split; [reflexivity |].
  split; [reflexivity |].
  intros Hspace. unfold sanitize_filename.
  rewrite strip_all_space by now apply Forall_filter.
  now destruct name.
Qed.

(** ** Extraction Orchestrator *)

Section Orchestrator.
Context `{UnicodeDB} `{Writer}.
Variables (data : bytes) (entries : list entry).

(** When steps a to f give a job, the attempt is the writer's call on it:
    the entry is written exactly when the writer returns. *)
Lemma try_entry_prepared (i idx start : Z) (job : wav_job) (w : world) :
  prepare_entry data entries i idx start = Some job ->
  try_entry data entries i idx start w
  = (fst (write_job job w),
     match snd (write_job job w) with
     | Ok _ => Ok true
     | Raise e => Raise e
     end).
Proof.
  unfold prepare_entry, try_entry, io_bind, io_lift, io_ret, write_job.
  destruct (entry_size data entries i start) as [size | ?]; [| discriminate].
  destruct (size <? 80); [discriminate |].
  destruct (extract_sample_name _) as [name | ?]; [| discriminate].
  destruct (parse_audio_header _) as [[sample_rate channels] | ?]; [| discriminate].
  destruct (len _ <? 2); [discriminate |].
  destruct (process_pcm_data _ _) as [pcm | ?]; [| discriminate].
  intros [= <-]. simpl.
  destruct (wave_write _ _ _ _ _ w) as [w' [[] | e]]; reflexivity.
Qed.

(** When steps a to f give no job, the attempt leaves the world as it was
    and does not reach the end of the [try] block. *)
Lemma try_entry_unprepared (i idx start : Z) (w : world) :
  prepare_entry data entries i idx start = None ->
  fst (try_entry data entries i idx start w) = w /\
  snd (try_entry data entries i idx start w) <> Ok true.
Proof.
  unfold prepare_entry, try_entry, io_bind, io_lift, io_ret.
  destruct (entry_size data entries i start) as [size | ?];
    [| intros _; split; [reflexivity | discriminate]].
  destruct (size <? 80); [intros _; split; [reflexivity | discriminate] |].
  destruct (extract_sample_name _) as [name | ?];
    [| intros _; split; [reflexivity | discriminate]].
  destruct (parse_audio_header _) as [[sample_rate channels] | ?];
    [| intros _; split; [reflexivity | discriminate]].
  destruct (len _ <? 2); [intros _; split; [reflexivity | discriminate] |].
  destruct (process_pcm_data _ _) as [pcm | ?];
    [discriminate | intros _; split; [reflexivity | discriminate]].
Qed.

(** One iteration never raises: it adds one to the count when the entry
    is written and leaves the count alone otherwise. *)
Lemma extract_entry_counts (i : Z) (e : entry) (count : Z) (w : world) :
  extract_entry data entries i e count w
  = (world_after_entry data entries i e w,
     Ok (if entry_written data entries i e w then count + 1 else count)).
Proof.
  unfold extract_entry, io_bind, io_try, io_ret, world_after_entry, entry_written.
  destruct (try_entry data entries i (fst e) (snd e) w) as [w' [[|] | ex]];
    reflexivity.
Qed.

(** The loop never raises, attempts every entry in turn and returns the
    count it started from plus the number of entries written. *)
Lemma extract_loop_counts (rest : list entry) :
  forall (i count : Z) (w : world),
    extract_loop data entries i rest count w
    = (world_after data entries i rest w,
       Ok (count + written_count data entries i rest w)).
Proof.
  induction rest as [| e rest IH]; intros i count w; simpl.
  - unfold io_ret. now rewrite Z.add_0_r.
  - unfold io_bind. rewrite extract_entry_counts, IH.
    destruct (entry_written data entries i e w); do 2 f_equal; lia.
Qed.

Lemma written_count_bounds (rest : list entry) :
  forall (i : Z) (w : world),
    0 <= written_count data entries i rest w <= len rest.
Proof.
  unfold len.
  induction rest as [| e rest IH]; intros i w; simpl written_count.
  - simpl. lia.
  - specialize (IH (i + 1) (world_after_entry data entries i e w)).
    change (length (e :: rest)) with (S (length rest)).
    destruct (entry_written data entries i e w); lia.
Qed.

End Orchestrator.

(** C4. In the per-entry loop of [extract_mta] a failure on one entry
    (extent below 80, payload below 2 bytes, an exception while the header
    is parsed, the payload transformed or the file written) makes the loop
    skip that entry only: the loop never raises, it goes on with the
    entries that follow, and the value returned is the number of entries
    successfully written.  An entry is written exactly when its
    preparation succeeds and the writer returns; an entry that fails before
    the writer is reached leaves the output untouched. *)
Theorem extract_loop_skips_failed_entries `{UnicodeDB} `{Writer}
  (data : bytes) (entries : list entry) :
  (forall (rest : list entry) (i count : Z) (w : world),
     extract_loop data entries i rest count w
     = (world_after data entries i rest w,
        Ok (count + written_count data entries i rest w)) /\
     0 <= written_count data entries i rest w <= len rest) /\
  (forall (e : entry) (rest : list entry) (i count : Z) (w : world),
     entry_written data entries i e w = false ->
     extract_loop data entries i (e :: rest) count w
     = extract_loop data entries (i + 1) rest count
         (world_after_entry data entries i e w)) /\
  (forall (e : entry) (rest : list entry) (i count : Z) (w : world),
     entry_written data entries i e w = true ->
     extract_loop data entries i (e :: rest) count w
     = extract_loop data entries (i + 1) rest (count + 1)
         (world_after_entry data entries i e w)) /\
  (forall (e : entry) (i : Z) (w : world),
     entry_written data entries i e w = true <->
     exists job : wav_job,
       prepare_entry data entries i (fst e) (snd e) = Some job /\
       snd (write_job job w) = Ok tt) /\
  (forall (e : entry) (i : Z) (w : world),
     prepare_entry data entries i (fst e) (snd e) = None ->
     entry_written data entries i e w = false /\
     world_after_entry data entries i e w = w) /\
  (forall (section_offset : Z) (w w1 : world),
     find_dwav_section data = Some section_offset ->
     entries = parse_audio_entries data section_offset ->
     entries <> [] ->
     mkdir w = (w1, Ok tt) ->
     extract_mta (Readable data) w
     = (world_after data entries 0 entries w1,
        Ok (written_count data entries 0 entries w1))).
Proof.
  split; [| split; [| split; [| split; [| split]]]].
  - intros rest i count w. split.
    + apply extract_loop_counts.
    + apply written_count_bounds.
  - intros e rest i count w Hfail. simpl. unfold io_bind.
    now rewrite extract_entry_counts, Hfail.
  - intros e rest i count w Hok. simpl. unfold io_bind.
    now rewrite extract_entry_counts, Hok.
  - intros e i w. unfold entry_written.
    destruct (prepare_entry data entries i (fst e) (snd e)) as [job |] eqn:Hprep.
    + rewrite (try_entry_prepared data entries i _ _ job w Hprep). simpl.
      split.
      * intros Hw. exists job. split; [reflexivity |].
        destruct (snd (write_job job w)) as [[] | ex]; [reflexivity | discriminate].
      * intros (job' & [= <-] & Hw). now rewrite Hw.
    + destruct (try_entry_unprepared data entries i _ _ w Hprep) as [_ Hne].
      split.
      * intros Hw.
        destruct (snd (try_entry data entries i (fst e) (snd e) w)) as [[|] | ex];
          try discriminate. now elim Hne.
      * intros (job & Hjob & _). discriminate.
  - intros e i w Hprep.
    destruct (try_entry_unprepared data entries i _ _ w Hprep) as [Hw Hne].
    split; [| exact Hw]. unfold entry_written.
    destruct (snd (try_entry data entries i (fst e) (snd e) w)) as [[|] | ex];
      try reflexivity. now elim Hne.
  - intros section_offset w w1 Hfind -> Hne Hmk.
    unfold extract_mta. rewrite Hfind.
    destruct (parse_audio_entries data section_offset) as [| e es] eqn:Hes;
      [now elim Hne |].
    cbn [is_empty]. unfold io_bind at 1. rewrite Hmk.
    rewrite extract_loop_counts. now rewrite Z.add_0_l.
Qed.

(** ** The properties at the sample data *)

(** The table of [sample_container], whose section starts at 200. *)
Lemma parse_audio_entries_spec_sample :
  0 <= 200 /\
  exists n : nat,
    parse_audio_entries sample_container 200
    = map (record_entry sample_container 200) (seq 0 n) /\
    record_stops sample_container 200 n = true /\
    (forall k, (k < n)%nat -> record_stops sample_container 200 k = false) /\
    Forall (fun e : entry => 0 <= snd e)
      (parse_audio_entries sample_container 200).
Proof.
  split; [lia | apply (parse_audio_entries_spec sample_container 200); lia].
Defined.

(** The header of the stereo sample is 80 bytes long and parses to
    22050 Hz, 2 channels. *)
Lemma parse_audio_header_spec_sample :
  len (sample_header "Kick!! #1" x56 x22 x02) = 80 /\
  exists sample_rate channels : Z,
    parse_audio_header (sample_header "Kick!! #1" x56 x22 x02)
    = Ok (sample_rate, channels) /\
    sample_rate
    = (if be_u16_at (sample_header "Kick!! #1" x56 x22 x02) 0x36 =? 0
       then 44100
       else be_u16_at (sample_header "Kick!! #1" x56 x22 x02) 0x36) /\
    sample_rate <> 0 /\
    channels
    = (if byte_at (sample_header "Kick!! #1" x56 x22 x02) 0x49 =? 2 then 2 else 1).
Proof.
  split; [reflexivity |].
  apply (parse_audio_header_spec (sample_header "Kick!! #1" x56 x22 x02)).
  reflexivity.
Defined.

(** A mono payload of two samples: the sample [01 02] and its pair
    [03 04]. *)
Lemma process_pcm_data_mono_first_half_sample :
  process_pcm_data ([x01; x02] ++ [x03; x04]) 1 = Ok (swap_words [x01; x02]) /\
  length (samples_le (swap_words [x01; x02])) = 1%nat /\
  samples_le (swap_words [x01; x02]) = samples_be [x01; x02] /\
  (forall second' : bytes,
     length second' = (2 * 1)%nat ->
     process_pcm_data ([x01; x02] ++ second') 1
     = process_pcm_data ([x01; x02] ++ [x03; x04]) 1).
Proof.
  apply (process_pcm_data_mono_first_half 1 [x01; x02] [x03; x04]); reflexivity.
Defined.

(** With index 7 and a name of three spaces, over ASCII. *)
Lemma sanitize_filename_spec_sample :
  0 <= 7 /\
  Forall (fun c => @isspace ascii_only c = true) (pystr "   ") /\
  format_03d 7 = zero_fill 3 (decimal (Z.to_N 7)) /\
  @sanitize_filename ascii_only (pystr "   ") 7 = pystr "sample_007".
Proof.
  assert (Hspaces : Forall (fun c => @isspace ascii_only c = true) (pystr "   ")).
  { repeat constructor. }
  destruct (@sanitize_filename_spec ascii_only (pystr "   ") 7)
    as (_ & _ & _ & _ & Hformat & _ & _ & Hblank).
  split; [lia |]. split; [exact Hspaces |].
  split; [apply Hformat; lia | apply Hblank, Hspaces].
Defined.

(** On a full disk no entry of [sample_container] is written, and
    [extract_mta] still returns, with 0. *)
Example extract_mta_sample_container_full_disk :
  @extract_mta ascii_only failing_writer (Readable sample_container) []
  = ([], Ok 0).
Proof. vm_compute. reflexivity. Qed.

(** End to end on [sample_container] with a writer that never fails: the
    mono entry (index 1) is lost to the [ValueError] of
    [process_pcm_data], the stereo entry (index 2) is written, and
    [extract_mta] returns 1. *)
Lemma extract_mta_sample_container :
  find_dwav_section sample_container = Some 200 /\
  parse_audio_entries sample_container 200 = [(1, 328); (2, 414)] /\
  @entry_written ascii_only recording_writer
    sample_container [(1, 328); (2, 414)] 0 (1, 328) [] = false /\
  @extract_mta ascii_only recording_writer (Readable sample_container) []
  = ([{| job_name := pystr "002_Kick 1.wav";
         job_channels := 2;
         job_rate := 22050;
         job_frames := [x02; x01; x04; x03] |}],
     Ok 1).
Proof.
  assert (Hfind : find_dwav_section sample_container = Some 200)
    by (vm_compute; reflexivity).
  assert (Hentries : parse_audio_entries sample_container 200 = [(1, 328); (2, 414)])
    by (vm_compute; reflexivity).
  split; [exact Hfind |]. split; [exact Hentries |].
  split; [vm_compute; reflexivity |].
  destruct (@extract_loop_skips_failed_entries ascii_only recording_writer
              sample_container [(1, 328); (2, 414)])
    as (_ & _ & _ & _ & _ & Hmta).
  rewrite (Hmta 200 [] []);
    [vm_compute; reflexivity | exact Hfind | now rewrite Hentries
    | discriminate | reflexivity].
Defined.

(** * Further properties of the code *)

(** ** Formatting of the index *)

Lemma uint_digits_all_digits (d : Decimal.uint) :
  Forall (fun c => is_digit c = true) (uint_digits d).
Proof. induction d; simpl; constructor; auto. Qed.

Lemma digits_uint_uint_digits (d : Decimal.uint) :
  digits_uint (uint_digits d) = d.
Proof. induction d; simpl; congruence. Qed.

Lemma uint_digits_nonempty (n : N) : decimal n <> [].
Proof.
  unfold decimal. destruct n as [| p]; simpl; [discriminate |].
  pose proof (DecimalPos.Unsigned.to_uint_nonnil p) as Hnil.
  destruct (Pos.to_uint p); simpl; try discriminate. now elim Hnil.
Qed.

(** Leading zeros do not change the number read back. *)
Lemma of_uint_zero_fill (width : nat) (n : N) :
  N.of_uint (digits_uint (zero_fill width (decimal n))) = n.
Proof.
  unfold zero_fill, decimal.
  induction (width - length (uint_digits (N.to_uint n)))%nat as [| k IH]; simpl.
  - rewrite digits_uint_uint_digits. apply DecimalN.Unsigned.of_to.
  - exact IH.
Qed.

Lemma zero_fill_all_digits (width : nat) (n : N) :
  Forall (fun c => is_digit c = true) (zero_fill width (decimal n)).
Proof.
  unfold zero_fill, decimal. apply Forall_app. split.
  - apply Forall_forall. intros c Hc. apply repeat_spec in Hc. now subst c.
  - apply uint_digits_all_digits.
Qed.

Lemma zero_fill_length (width : nat) (digits : str) :
  (width <= length (zero_fill width digits))%nat.
Proof. unfold zero_fill. rewrite length_app, repeat_length. lia. Qed.

(** The characters of a formatted index: digits, after an optional
    leading hyphen. *)
Lemma format_03d_chars (idx : Z) :
  Forall (fun c => is_digit c = true \/ c = HYPHEN) (format_03d idx).
Proof.
  unfold format_03d. destruct (idx <? 0).
  - constructor; [now right |].
    eapply Forall_impl; [| apply zero_fill_all_digits]. intros c Hc. now left.
  - eapply Forall_impl; [| apply zero_fill_all_digits]. intros c Hc. now left.
Qed.

(** Reading a formatted index back gives the index. *)
Lemma format_03d_value (idx : Z) : format_value (format_03d idx) = idx.
Proof.
  unfold format_03d, format_value.
  destruct (Z.ltb_spec idx 0) as [Hneg | Hpos].
  - rewrite N.eqb_refl, of_uint_zero_fill. lia.
  - pose proof (zero_fill_all_digits 3 (Z.to_N (Z.abs idx))) as Hdigits.
    pose proof (zero_fill_length 3 (decimal (Z.to_N (Z.abs idx)))) as Hlen.
    pose proof (of_uint_zero_fill 3 (Z.to_N (Z.abs idx))) as Hread.
    destruct (zero_fill 3 (decimal (Z.to_N (Z.abs idx)))) as [| c rest];
      [simpl in Hlen; lia |].
    inversion Hdigits as [| ? ? Hc _]; subst.
    assert (Hnot : (c =? HYPHEN)%N = false).
    { unfold is_digit, in_range in Hc. apply andb_true_iff in Hc.
      destruct Hc as [Hlo _]. apply N.leb_le in Hlo.
      apply N.eqb_neq. unfold HYPHEN. lia. }
    rewrite Hnot, Hread. lia.
Qed.

(** [f"{idx:03d}"] can be read back: the text spells [idx], for every
    integer, it is at least 3 characters long, and it consists of decimal
    digits after an optional leading hyphen.  So two different indices
    never format to the same text. *)
Theorem format_03d_round_trip (idx : Z) :
  format_value (format_03d idx) = idx /\
  (3 <= length (format_03d idx))%nat /\
  Forall (fun c => is_digit c = true \/ c = HYPHEN) (format_03d idx) /\
  (forall idx' : Z, format_03d idx' = format_03d idx -> idx' = idx).
Proof.
  split; [apply format_03d_value |]. split; [| split; [apply format_03d_chars |]].
  - unfold format_03d. destruct (idx <? 0).
    + pose proof (zero_fill_length 2 (decimal (Z.to_N (Z.abs idx)))).
      simpl length. lia.
    + apply zero_fill_length.
  - intros idx' Heq. rewrite <- (format_03d_value idx'), Heq.
    apply format_03d_value.
Qed.

(** ** File name sanitation *)

Section Sanitation.
Context `{UnicodeDB}.

Lemma filter_id {A : Type} (f : A -> bool) (l : list A) :
  Forall (fun x => f x = true) l -> filter f l = l.
Proof.
  induction 1 as [| x l Hx _ IH]; simpl; [reflexivity |]. now rewrite Hx, IH.
Qed.

(** A text that neither starts nor ends with whitespace is left alone by
    [strip]. *)
Lemma strip_fixed (t : str) :
  (forall c rest, t = c :: rest -> isspace c = false) ->
  (forall front c, t = front ++ [c] -> isspace c = false) ->
  strip t = t.
Proof.
  intros Hhead Hlast. unfold strip, rstrip.
  assert (Hl : lstrip t = t).
  { destruct t as [| c rest]; simpl; [reflexivity |].
    now rewrite (Hhead c rest eq_refl). }
  rewrite Hl.
  destruct (rev t) as [| c r] eqn:Hrev.
  - simpl. rewrite <- (rev_involutive t), Hrev. reflexivity.
  - assert (Ht : t = rev r ++ [c]).
    { rewrite <- (rev_involutive t), Hrev. reflexivity. }
    simpl. rewrite (Hlast (rev r) c Ht). simpl. now rewrite Ht.
Qed.

Lemma strip_idempotent (s : str) : strip (strip s) = strip s.
Proof.
  destruct (strip_trimmed s) as (pre & post & _ & _ & _ & Hhead & Hlast).
  now apply strip_fixed.
Qed.

Lemma strip_no_space (t : str) :
  Forall (fun c => isspace c = false) t -> strip t = t.
Proof.
  intros Hall. rewrite Forall_forall in Hall.
  apply strip_fixed.
  - intros c rest ->. apply Hall. now left.
  - intros front c ->. apply Hall. apply in_or_app. right. now left.
Qed.

Lemma digit_kept (c : N) : is_digit c = true -> keep_char c = true.
Proof.
  unfold is_digit, keep_char, isalnum, ascii_isalnum. intros Hc. rewrite Hc.
  unfold in_range in Hc. apply andb_true_iff in Hc. destruct Hc as [_ Hhi].
  apply N.leb_le in Hhi.
  assert (Hascii : (c <? 128)%N = true) by (apply N.ltb_lt; lia).
  now rewrite Hascii.
Qed.

Lemma digit_not_space (c : N) : is_digit c = true -> isspace c = false.
Proof.
  unfold is_digit, isspace, ascii_isspace, in_range. intros Hc.
  apply andb_true_iff in Hc. destruct Hc as [Hlo Hhi].
  apply N.leb_le in Hlo, Hhi.
  assert (Hascii : (c <? 128)%N = true) by (apply N.ltb_lt; lia).
  rewrite Hascii.
  assert (H13 : (c <=? 13)%N = false) by (apply N.leb_gt; lia).
  assert (H32 : (c <=? 32)%N = false) by (apply N.leb_gt; lia).
  now rewrite H13, H32, !andb_false_r.
Qed.

(** The fallback name consists of kept characters, none of them
    whitespace. *)
Lemma fallback_chars (idx : Z) :
  Forall (fun c => keep_char c = true /\ isspace c = false)
    (pystr "sample_" ++ format_03d idx).
Proof.
  apply Forall_app. split.
  - repeat constructor.
  - eapply Forall_impl; [| apply format_03d_chars].
    intros c [Hdigit | ->].
    + split; [now apply digit_kept | now apply digit_not_space].
    + split; reflexivity.
Qed.

(** What [sanitize_filename] does to a text that needs no cleaning. *)
Lemma sanitize_filename_fixed (t : str) (idx : Z) :
  t <> [] ->
  Forall (fun c => keep_char c = true) t ->
  strip t = t ->
  sanitize_filename t idx = t.
Proof.
  intros Hne Hkeep Hstrip. unfold sanitize_filename.
  rewrite filter_id, Hstrip by exact Hkeep.
  destruct t; [now elim Hne | reflexivity].
Qed.

(** The three facts about a sanitized name that its uses rest on. *)
Lemma sanitize_filename_clean (name : str) (idx : Z) :
  sanitize_filename name idx <> [] /\
  Forall (fun c => keep_char c = true) (sanitize_filename name idx) /\
  strip (sanitize_filename name idx) = sanitize_filename name idx.
Proof.
  assert (Hfallback :
            pystr "sample_" ++ format_03d idx <> [] /\
            Forall (fun c => keep_char c = true) (pystr "sample_" ++ format_03d idx) /\
            strip (pystr "sample_" ++ format_03d idx)
            = pystr "sample_" ++ format_03d idx).
  { pose proof (fallback_chars idx) as Hchars.
    split; [discriminate |]. split.
    - eapply Forall_impl; [| exact Hchars]. now intros c [Hk _].
    - apply strip_no_space. eapply Forall_impl; [| exact Hchars].
      now intros c [_ Hs]. }
  unfold sanitize_filename.
  destruct name as [| c name]; [exact Hfallback |].
  cbn [is_empty].
  destruct (strip (filter keep_char (c :: name))) as [| d t] eqn:Hclean;
    [exact Hfallback |].
  cbn [is_empty]. rewrite <- Hclean.
  split; [rewrite Hclean; discriminate |]. split.
  - eapply trimmed_of_Forall; [apply strip_trimmed | apply filter_all].
  - apply strip_idempotent.
Qed.

End Sanitation.

(** The name [sanitize_filename] returns is never empty, consists only of
    alphanumeric characters, space, underscore and hyphen, and neither
    starts nor ends with whitespace; so it contains no path separator
    (["/"], ["\"]), no dot and no NUL, whatever the name and the index. *)
Theorem sanitize_filename_safe `{UnicodeDB} (name : str) (idx : Z) :
  sanitize_filename name idx <> [] /\
  Forall (fun c => keep_char c = true) (sanitize_filename name idx) /\
  trimmed_of (sanitize_filename name idx) (sanitize_filename name idx) /\
  ~ In 47%N (sanitize_filename name idx) /\
  ~ In 92%N (sanitize_filename name idx) /\
  ~ In 46%N (sanitize_filename name idx) /\
  ~ In NUL (sanitize_filename name idx).
Proof.
  destruct (sanitize_filename_clean name idx) as (Hne & Hkeep & Hstrip).
  split; [exact Hne |]. split; [exact Hkeep |].
  split; [rewrite <- Hstrip at 2; apply strip_trimmed |].
  rewrite Forall_forall in Hkeep.
  repeat split; intros Hin; apply Hkeep in Hin; discriminate.
Qed.

(** [sanitize_filename] is idempotent: a sanitized name is sanitized to
    itself, with any index. *)
Theorem sanitize_filename_idempotent `{UnicodeDB} (name : str) (idx idx' : Z) :
  sanitize_filename (sanitize_filename name idx) idx'
  = sanitize_filename name idx.
Proof.
  destruct (sanitize_filename_clean name idx) as (Hne & Hkeep & Hstrip).
  now apply sanitize_filename_fixed.
Qed.

(** ** Sample Header Parser *)

Lemma index_outside {A : Type} (l : list A) (i : Z) :
  len l <= i -> index l i = Raise IndexError.
Proof.
  intros Hi. unfold index. pose proof (len_nonneg l).
  assert (Hneg : (i <? 0) = false) by lia.
  assert (Hout : (len l <=? i) = true) by lia.
  rewrite Hneg. cbv zeta. now rewrite Hneg, Hout.
Qed.

(** A slice with non-negative bounds is no longer than the bounds are
    apart. *)
Lemma slice_length_le {A : Type} (l : list A) (i j : Z) :
  0 <= i <= j -> len (slice l i j) <= j - i.
Proof.
  intros Hij. unfold slice, len. rewrite length_firstn.
  unfold clamp_index.
  assert (Hi : (i <? 0) = false) by lia.
  assert (Hj : (j <? 0) = false) by lia.
  rewrite Hi, Hj. lia.
Qed.

(** A slice from the start is a prefix. *)
Lemma slice_prefix {A : Type} (l : list A) (k : Z) :
  0 <= k -> slice l 0 k = firstn (Z.to_nat k) l.
Proof.
  intros Hk. unfold slice, clamp_index, len.
  assert (Hneg : (k <? 0) = false) by lia.
  rewrite Hneg. cbn [Z.ltb Z.compare].
  rewrite (Z.min_l 0) by lia. cbn [Z.to_nat skipn]. rewrite Z.sub_0_r.
  destruct (Z.le_ge_cases k (Z.of_nat (length l))) as [Hin | Hout].
  - now rewrite Z.min_l by lia.
  - rewrite Z.min_r by lia. rewrite Nat2Z.id.
    now rewrite !firstn_all2 by lia.
Qed.

(** A big-endian integer of [n] bytes is below [256 ^ n]. *)
Lemma int_from_bytes_big_bound (bs : bytes) :
  int_from_bytes_big bs < 256 ^ len bs.
Proof.
  unfold int_from_bytes_big, len.
  assert (Hacc : forall acc, 0 <= acc ->
            fold_left (fun acc b => acc * 256 + byte_val b) bs acc
            < (acc + 1) * 256 ^ Z.of_nat (length bs)).
  { induction bs as [| b bs IH]; intros acc Hacc.
    - simpl. lia.
    - cbn [fold_left length]. pose proof (byte_val_range b) as Hb.
      eapply Z.lt_le_trans; [apply IH; lia |].
      rewrite Nat2Z.inj_succ, Z.pow_succ_r by lia.
      assert (0 < 256 ^ Z.of_nat (length bs)) by (apply Z.pow_pos_nonneg; lia).
      nia. }
  specialize (Hacc 0 ltac:(lia)). lia.
Qed.

(** The ranges of what [parse_audio_header] returns. *)
Lemma parse_audio_header_ranges (header : bytes) (sample_rate channels : Z) :
  parse_audio_header header = Ok (sample_rate, channels) ->
  1 <= sample_rate <= 65535 /\ (channels = 1 \/ channels = 2).
Proof.
  unfold parse_audio_header.
  destruct (index header 0x49) as [channels_byte | e]; [| discriminate].
  simpl. intros [= <- <-].
  pose proof (int_from_bytes_big_nonneg (slice header 0x36 0x38)) as Hlo.
  pose proof (int_from_bytes_big_bound (slice header 0x36 0x38)) as Hhi.
  pose proof (slice_length_le header 0x36 0x38 ltac:(lia)) as Hlen.
  pose proof (len_nonneg (slice header 0x36 0x38)) as Hnn.
  assert (256 ^ len (slice header 0x36 0x38) <= 256 ^ 2)
    by (apply Z.pow_le_mono_r; lia).
  split.
  - destruct (Z.eqb_spec (int_from_bytes_big (slice header 0x36 0x38)) 0); lia.
  - destruct (_ =? 2); auto.
Qed.

(** [parse_audio_header] raises, with [IndexError], exactly on a header
    shorter than 0x4A bytes (the channel byte is missing).  Whenever it
    returns, the sample rate is between 1 and 65535 and the channel count
    is 1 or 2. *)
Theorem parse_audio_header_total (header : bytes) :
  (len header < 0x4A <-> parse_audio_header header = Raise IndexError) /\
  (0x4A <= len header <->
   exists sample_rate channels : Z,
     parse_audio_header header = Ok (sample_rate, channels)) /\
  (forall sample_rate channels : Z,
     parse_audio_header header = Ok (sample_rate, channels) ->
     1 <= sample_rate <= 65535 /\ (channels = 1 \/ channels = 2)).
Proof.
  split; [| split; [| apply parse_audio_header_ranges]].
  - unfold parse_audio_header.
    destruct (Z.lt_ge_cases (len header) 0x4A) as [Hshort | Hlong].
    + rewrite index_outside by lia. simpl. split; [reflexivity | lia].
    + rewrite (index_inside x00) by lia. simpl. split; [lia | discriminate].
  - unfold parse_audio_header.
    destruct (Z.lt_ge_cases (len header) 0x4A) as [Hshort | Hlong].
    + rewrite index_outside by lia. simpl. split; [lia |].
      intros (r & c & Hrc). discriminate.
    + rewrite (index_inside x00) by lia. simpl. split; [eauto | lia].
Qed.

(** ** Sample name *)

Lemma trimmed_of_length `{UnicodeDB} (s t : str) :
  trimmed_of s t -> (length t <= length s)%nat.
Proof. intros (pre & post & -> & _). rewrite !length_app. lia. Qed.

Lemma ascii_chars_all_ascii (bs : bytes) :
  Forall (fun c => (c < 128)%N) (ascii_chars bs).
Proof.
  unfold ascii_chars. apply Forall_forall. intros c Hc.
  apply in_map_iff in Hc. destruct Hc as (b & <- & Hb).
  apply filter_In in Hb. destruct Hb as [_ Hb]. now apply N.ltb_lt.
Qed.

Lemma ascii_chars_length (bs : bytes) :
  (length (ascii_chars bs) <= length bs)%nat.
Proof. unfold ascii_chars. rewrite length_map. apply filter_length_le. Qed.

(** The name [extract_sample_name] returns has at most 16 characters, all
    of them ASCII, and depends on the first 16 bytes of the header only;
    a header shorter than 16 bytes, the empty one included, is accepted. *)
Theorem extract_sample_name_bounds `{UnicodeDB} (header : bytes) :
  exists name : str,
    extract_sample_name header = Ok name /\
    (length name <= 16)%nat /\
    (length name <= length header)%nat /\
    Forall (fun c => (c < 128)%N) name /\
    extract_sample_name (firstn 16 header) = Ok name.
Proof.
  assert (Hname : forall h,
            extract_sample_name h
            = Ok (remove_char NUL (strip (ascii_chars (firstn 16 h))))).
  { intros h. unfold extract_sample_name.
    rewrite decode_ascii_ignore, slice_prefix by lia. reflexivity. }
  eexists. split; [apply Hname |].
  assert (Hlen : (length (remove_char NUL (strip (ascii_chars (firstn 16 header))))
                  <= length (firstn 16 header))%nat).
  { unfold remove_char.
    eapply Nat.le_trans; [apply filter_length_le |].
    eapply Nat.le_trans; [apply trimmed_of_length, strip_trimmed |].
    apply ascii_chars_length. }
  rewrite length_firstn in Hlen.
  split; [lia |]. split; [lia |]. split.
  - unfold remove_char. apply Forall_filter.
    eapply trimmed_of_Forall; [apply strip_trimmed | apply ascii_chars_all_ascii].
  - rewrite Hname, firstn_firstn. reflexivity.
Qed.

(** ** Payload Transformer *)

(** Any channel count other than 1 takes the stereo path. *)
Lemma process_pcm_data_not_mono (payload : bytes) (channels : Z) :
  channels <> 1 ->
  process_pcm_data payload channels = Ok (swap_words (truncate_even payload)).
Proof.
  intros Hch. unfold process_pcm_data. rewrite drop_odd_byte.
  assert (Hne : (channels =? 1) = false) by lia. rewrite Hne.
  destruct (array_h_even _ (truncate_even_even payload)) as (a & Ha & Hswap).
  rewrite Ha. simpl. now rewrite Hswap.
Qed.

Lemma process_pcm_data_mono_even_half (payload : bytes) :
  Nat.even (length payload / 2) = true ->
  process_pcm_data payload 1
  = Ok (swap_words (firstn (length payload / 2) payload)).
Proof.
  intros Heven. rewrite process_pcm_data_mono.
  destruct (array_h_even (firstn (length payload / 2) payload))
    as (a & Ha & Hswap).
  { rewrite length_firstn.
    pose proof (Nat.div_mod_eq (length payload) 2).
    now replace (Nat.min (length payload / 2) (length payload))
      with (length payload / 2)%nat by lia. }
  rewrite Ha. simpl. now rewrite Hswap.
Qed.

Lemma truncate_even_fixed (bs : bytes) :
  Nat.even (length bs) = true -> truncate_even bs = bs.
Proof.
  intros Heven. unfold truncate_even.
  apply Nat.even_spec in Heven. destruct Heven as [k Hk].
  assert (Hhalf : (length bs / 2 = k)%nat)
    by (rewrite Hk, Nat.mul_comm; apply Nat.div_mul; lia).
  rewrite Hhalf, <- Hk. apply firstn_all.
Qed.

(** With a channel count other than 1 (2, but also 0, 3, ...) the call
    always returns the even-truncated payload with the bytes of every word
    exchanged, and a second call on the output gives the truncated payload
    back. *)
Theorem process_pcm_data_other_channels (payload : bytes) (channels : Z) :
  channels <> 1 ->
  process_pcm_data payload channels = Ok (swap_words (truncate_even payload)) /\
  process_pcm_data (swap_words (truncate_even payload)) channels
  = Ok (truncate_even payload).
Proof.
  intros Hch. split; [now apply process_pcm_data_not_mono |].
  rewrite process_pcm_data_not_mono by exact Hch.
  rewrite truncate_even_fixed, swap_words_involutive; [reflexivity |].
  rewrite swap_words_length. apply truncate_even_even.
Qed.

(** The shape of a returned buffer. *)
Lemma process_pcm_data_length (payload out : bytes) (channels : Z) :
  process_pcm_data payload channels = Ok out ->
  Nat.even (length out) = true /\
  length out
  = (if channels =? 1
     then (length payload / 2)%nat
     else (2 * (length payload / 2))%nat).
Proof.
  destruct (Z.eqb_spec channels 1) as [-> | Hch].
  - destruct (Nat.even (length payload / 2)) eqn:Hparity.
    + rewrite process_pcm_data_mono_even_half by exact Hparity.
      intros Heq.
      assert (Hout : out = swap_words (firstn (length payload / 2) payload))
        by congruence.
      assert (Hlen : length out = (length payload / 2)%nat).
      { rewrite Hout, swap_words_length, length_firstn.
        pose proof (Nat.div_mod_eq (length payload) 2). lia. }
      now rewrite Hlen.
    + rewrite process_pcm_data_mono_odd_half by exact Hparity. discriminate.
  - rewrite process_pcm_data_not_mono by exact Hch. intros Heq.
    assert (Hout : out = swap_words (truncate_even payload)) by congruence.
    rewrite Hout, swap_words_length. split.
    + apply truncate_even_even.
    + apply truncate_even_length.
Qed.

(** Whenever [process_pcm_data] returns, for any channel count, the
    buffer has even length, is no longer than the payload (half of it,
    rounded down, for [channels = 1]; the payload less its odd byte
    otherwise) and is not empty when the payload has at least 2 bytes. *)
Theorem process_pcm_data_output_shape (payload out : bytes) (channels : Z) :
  process_pcm_data payload channels = Ok out ->
  Nat.even (length out) = true /\
  length out
  = (if channels =? 1
     then (length payload / 2)%nat
     else (2 * (length payload / 2))%nat) /\
  (length out <= length payload)%nat /\
  (2 <= length payload -> out <> [])%nat.
Proof.
  intros Hout.
  destruct (process_pcm_data_length payload out channels Hout) as [Heven Hlen].
  pose proof (Nat.div_mod_eq (length payload) 2) as Hdm.
  pose proof (Nat.mod_upper_bound (length payload) 2 ltac:(lia)) as Hub.
  split; [exact Heven |]. split; [exact Hlen |].
  assert (Hpos : (2 <= length payload -> 1 <= length payload / 2)%nat).
  { intros Hp. destruct (length payload / 2)%nat; lia. }
  split.
  - destruct (channels =? 1); lia.
  - intros Hp ->. specialize (Hpos Hp). cbn [length] in Hlen.
    destruct (channels =? 1); lia.
Qed.

(** ** Entry Table Walker *)

Lemma len_app {A : Type} (l1 l2 : list A) : len (l1 ++ l2) = len l1 + len l2.
Proof. unfold len. rewrite length_app. lia. Qed.

Lemma len_one {A : Type} (a : A) : len [a] = 1.
Proof. reflexivity. Qed.


(** Loop invariant for the sizes: every appended entry costs 32 bytes of
    the container between [offset] and its end, and every iteration logs
    at most two slices. *)
Lemma walk_size (data : bytes) (s offset : Z)
  (entries : list entry) (log : list read) :
  len entries <= len (fst (walk data s offset entries log)) /\
  32 * (len (fst (walk data s offset entries log)) - len entries)
  <= Z.max 0 (len data - offset) /\
  len (snd (walk data s offset entries log)) - len log
  <= 2 * (len (fst (walk data s offset entries log)) - len entries) + 2.
Proof.
  funelim (walk data s offset entries log).
  - cbv zeta. cbv zeta in H.
    destruct ((_ =? 0) || (_ >? 0xFFFF)); cbn [fst snd].
    + rewrite len_app, len_one. lia.
    + destruct (_ >=? len data); cbn [fst snd].
      * rewrite !len_app, !len_one. lia.
      * destruct H as (Hmono & Hbytes & Hreads).
        rewrite !len_app, !len_one in *. unfold entry, read in *. lia.
  - cbn [fst snd]. lia.
Qed.

(** The entry table holds at most one entry per 32 bytes between the
    first record and the end of the container: it is empty when the first
    record does not fit, for any section offset, and the walker takes at
    most two 4-byte slices per record it visits. *)
Theorem parse_audio_entries_size (data : bytes) (section_offset : Z) :
  32 * len (parse_audio_entries data section_offset)
  <= Z.max 0 (len data - (section_offset + 32)) /\
  (len data < section_offset + 64 ->
   parse_audio_entries data section_offset = []) /\
  len (parse_audio_entries_reads data section_offset)
  <= 2 * len (parse_audio_entries data section_offset) + 2.
Proof.
  unfold parse_audio_entries, parse_audio_entries_reads.
  destruct (walk_size data section_offset (section_offset + 32) [] [])
    as (_ & Hbytes & Hreads).
  change (len (@nil entry)) with 0 in *. change (len (@nil read)) with 0 in *.
  split; [lia |]. split; [| lia].
  intros Hshort.
  destruct (fst (walk data section_offset (section_offset + 32) [] []))
    as [| e es]; [reflexivity |].
  unfold len in *. simpl length in Hbytes. lia.
Qed.

(** Loop invariant for the offsets: from a section offset that is a
    position, every appended absolute offset is a position of the
    container. *)
Lemma walk_offsets (data : bytes) (s offset : Z)
  (entries : list entry) (log : list read) :
  0 <= s ->
  Forall (fun e : entry => 0 <= snd e < len data) entries ->
  Forall (fun e : entry => 0 <= snd e < len data)
    (fst (walk data s offset entries log)).
Proof.
  funelim (walk data s offset entries log); intros Hs Hvalid.
  - cbv zeta.
    pose proof (int_from_bytes_big_nonneg (slice data (offset + 8) (offset + 12)))
      as Hptr.
    destruct ((_ =? 0) || (_ >? 0xFFFF)); [exact Hvalid |].
    destruct (_ >=? len data) eqn:Hout; [exact Hvalid |].
    apply H; [exact Hs |]. apply Forall_app. split; [exact Hvalid |].
    constructor; [| constructor]. simpl. lia.
  - exact Hvalid.
Qed.

Lemma find_dwav_section_some (data : bytes) (s : Z) :
  find_dwav_section data = Some s -> 0 <= s < len data.
Proof.
  unfold find_dwav_section.
  destruct (len data <? 0xC8); [discriminate |].
  pose proof (int_from_bytes_big_nonneg (slice data 0xC4 0xC8)) as Hpos.
  destruct (Z.geb_spec (int_from_bytes_big (slice data 0xC4 0xC8)) (len data));
    [discriminate |].
  intros [= <-]. lia.
Qed.

(** The locator and the walker composed: in the table of a located
    section every absolute offset is a position of the container. *)
Lemma located_entries_offsets (data : bytes) (s : Z) :
  find_dwav_section data = Some s ->
  Forall (fun e : entry => 0 <= snd e < len data) (parse_audio_entries data s).
Proof.
  intros Hfind. apply find_dwav_section_some in Hfind.
  unfold parse_audio_entries. apply walk_offsets; [lia | constructor].
Qed.

(** ** Extraction Orchestrator *)

Lemma slice_length {A : Type} (l : list A) (i j : Z) :
  0 <= i -> i <= j -> j <= len l -> len (slice l i j) = j - i.
Proof.
  intros Hi Hij Hj. rewrite slice_inside by assumption.
  unfold len in *. rewrite length_firstn, length_skipn. lia.
Qed.

Lemma nth_slice {A : Type} (d : A) (l : list A) (i j k : Z) :
  0 <= i -> 0 <= k -> i + k < j -> j <= len l ->
  nth (Z.to_nat k) (slice l i j) d = nth (Z.to_nat (i + k)) l d.
Proof.
  intros Hi Hk Hlt Hj. rewrite slice_inside by lia.
  rewrite nth_firstn, nth_skipn.
  assert (Hin : (Z.to_nat k <? Z.to_nat (j - i))%nat = true)
    by (apply Nat.ltb_lt; lia).
  rewrite Hin. f_equal. lia.
Qed.

(** The parity of half a length, read off the length modulo 4. *)
Lemma even_half_mod4 (n : Z) :
  0 <= n -> Nat.even (Z.to_nat n / 2) = (n mod 4 <? 2).
Proof.
  intros Hn.
  pose proof (Z.mod_pos_bound n 4 ltac:(lia)) as Hm.
  pose proof (Z.div_mod n 4 ltac:(lia)) as Hdm.
  assert (Hhalf : Z.of_nat (Z.to_nat n / 2) = n / 2).
  { rewrite Nat2Z.inj_div, Z2Nat.id by lia. reflexivity. }
  assert (Hq : n / 2 = 2 * (n / 4) + (n mod 4) / 2).
  { rewrite Hdm at 1.
    replace (4 * (n / 4) + n mod 4) with (n mod 4 + (2 * (n / 4)) * 2) by lia.
    rewrite Z.div_add by lia. lia. }
  destruct (Z.ltb_spec (n mod 4) 2) as [Hlow | Hhigh].
  - apply Nat.even_spec. exists (Z.to_nat (n / 4)).
    assert (Hz : (n mod 4) / 2 = 0) by (apply Z.div_small; lia).
    lia.
  - apply Bool.not_true_iff_false. intros Heven.
    apply Nat.even_spec in Heven. destruct Heven as [k Hk].
    assert (Hone : (n mod 4) / 2 = 1).
    { assert (Hc : n mod 4 = 2 \/ n mod 4 = 3) by lia.
      destruct Hc as [-> | ->]; reflexivity. }
    lia.
Qed.

Lemma entry_size_value (data : bytes) (entries : list entry) (i : nat) (start : Z) :
  entry_size data entries (Z.of_nat i) start
  = Ok (match nth_error entries (S i) with
        | Some next => snd next - start
        | None => len data - start
        end).
Proof.
  unfold entry_size.
  destruct (nth_error entries (S i)) as [next |] eqn:Hnext.
  - assert (Hlt : (S i < length entries)%nat)
      by (apply nth_error_Some; congruence).
    assert (Hguard : (Z.of_nat i + 1 <? len entries) = true)
      by (unfold len; lia).
    rewrite Hguard, (index_inside next) by (unfold len; lia).
    replace (Z.to_nat (Z.of_nat i + 1)) with (S i) by lia.
    rewrite (nth_error_nth _ _ next Hnext). reflexivity.
  - apply nth_error_None in Hnext.
    assert (Hguard : (Z.of_nat i + 1 <? len entries) = false)
      by (unfold len; lia).
    now rewrite Hguard.
Qed.

Lemma extract_sample_name_value `{UnicodeDB} (header : bytes) :
  extract_sample_name header
  = Ok (remove_char NUL (strip (ascii_chars (firstn 16 header)))).
Proof.
  unfold extract_sample_name.
  rewrite decode_ascii_ignore, slice_prefix by lia. reflexivity.
Qed.

(** The header of a sample that lies in the container with its 80 bytes
    parses to the two fields read in the container. *)
Lemma header_fields (data : bytes) (start : Z) :
  0 <= start -> start + 80 <= len data ->
  parse_audio_header (slice data start (start + 80))
  = Ok (entry_rate data start, entry_channels data start).
Proof.
  intros Hstart Hfit. unfold parse_audio_header.
  assert (Hlen : len (slice data start (start + 80)) = 80)
    by (rewrite slice_length; lia).
  change 0x38 with (0x36 + 2).
  rewrite int_from_bytes_big_u16 by lia.
  rewrite (index_inside x00) by lia. cbn [bind].
  unfold be_u16_at, entry_rate, entry_channels, be_u16_at, byte_at.
  rewrite !(nth_slice x00) by lia.
  replace (start + 0x36 + 1) with (start + (0x36 + 1)) by lia.
  reflexivity.
Qed.

(** The attempt on an entry whose extent fits in the container, after
    the extent has been computed: the three ways it can go. *)
Lemma try_entry_sized `{UnicodeDB} `{Writer}
  (data : bytes) (entries : list entry) (i idx start size : Z) (w : world) :
  entry_size data entries i start = Ok size ->
  0 <= start -> start + size <= len data ->
  try_entry data entries i idx start w
  = if size <? 82 then (w, Ok false)
    else
      match process_pcm_data (slice data (start + 80) (start + size))
              (entry_channels data start) with
      | Raise e => (w, Raise e)
      | Ok frames =>
          (fst (wave_write
                  (wav_file_name idx
                     (sanitize_filename
                        (remove_char NUL
                           (strip (ascii_chars
                                     (firstn 16 (slice data start (start + 80))))))
                        idx))
                  (entry_channels data start) 2 (entry_rate data start) frames w),
           match snd (wave_write
                        (wav_file_name idx
                           (sanitize_filename
                              (remove_char NUL
                                 (strip (ascii_chars
                                           (firstn 16 (slice data start (start + 80))))))
                              idx))
                        (entry_channels data start) 2 (entry_rate data start)
                        frames w) with
           | Ok _ => Ok true
           | Raise e => Raise e
           end)
      end.
Proof.
  intros Hsize Hstart Hfit.
  unfold try_entry, io_bind, io_lift, io_ret. rewrite Hsize.
  destruct (Z.ltb_spec size 80) as [Hsmall | Hbig].
  - assert (Hlt : (size <? 82) = true) by lia. now rewrite Hlt.
  - rewrite extract_sample_name_value, header_fields by lia.
    rewrite slice_length by lia.
    replace (start + size - (start + 80)) with (size - 80) by lia.
    destruct (Z.ltb_spec (size - 80) 2) as [Hshort | Hlong].
    + assert (Hlt : (size <? 82) = true) by lia. now rewrite Hlt.
    + assert (Hge : (size <? 82) = false) by lia. rewrite Hge.
      destruct (process_pcm_data _ _) as [frames | e]; [| reflexivity].
      unfold wav_file_name.
      destruct (wave_write _ _ _ _ _ w) as [w' [[] | e]]; reflexivity.
Qed.

(** What happens to each entry of the table inside [extract_mta].  Its
    extent never exceeds what is left of the container, so the 80-byte
    header is always there when the extent is at least 80: no
    [IndexError] arises.  An entry with an extent below 82 (no room for
    one sample) is skipped with [continue]; a mono entry whose payload
    length modulo 4 is 2 or 3 is lost to the [ValueError] of
    [process_pcm_data]; every other entry reaches the writer, with the
    channel count and sample rate of its header, the transformed payload
    and the file name made of its index and sanitized name. *)
Theorem try_entry_cases `{UnicodeDB} `{Writer}
  (data : bytes) (s : Z) (i : nat) (idx start : Z) (w : world) :
  find_dwav_section data = Some s ->
  nth_error (parse_audio_entries data s) i = Some (idx, start) ->
  exists size : Z,
    entry_size data (parse_audio_entries data s) (Z.of_nat i) start = Ok size /\
    size <= len data - start /\
    (size < 82 ->
     try_entry data (parse_audio_entries data s) (Z.of_nat i) idx start w
     = (w, Ok false)) /\
    (82 <= size -> entry_channels data start = 1 -> 2 <= (size - 80) mod 4 ->
     try_entry data (parse_audio_entries data s) (Z.of_nat i) idx start w
     = (w, Raise ValueError)) /\
    (82 <= size ->
     entry_channels data start = 2 \/ (size - 80) mod 4 < 2 ->
     exists (name : str) (frames : bytes),
       extract_sample_name (slice data start (start + 80)) = Ok name /\
       process_pcm_data (slice data (start + 80) (start + size))
         (entry_channels data start) = Ok frames /\
       try_entry data (parse_audio_entries data s) (Z.of_nat i) idx start w
       = (fst (wave_write (wav_file_name idx (sanitize_filename name idx))
                 (entry_channels data start) 2 (entry_rate data start) frames w),
          match snd (wave_write (wav_file_name idx (sanitize_filename name idx))
                       (entry_channels data start) 2 (entry_rate data start)
                       frames w) with
          | Ok _ => Ok true
          | Raise e => Raise e
          end)).
Proof.
  intros Hfind Hentry.
  pose proof (located_entries_offsets data s Hfind) as Hvalid.
  rewrite Forall_forall in Hvalid.
  pose proof (Hvalid _ (nth_error_In _ _ Hentry)) as Hstart. simpl in Hstart.
  pose proof (entry_size_value data (parse_audio_entries data s) i start) as Hsize.
  set (size := match nth_error (parse_audio_entries data s) (S i) with
               | Some next => snd next - start
               | None => len data - start
               end) in Hsize.
  assert (Hfit : size <= len data - start).
  { subst size. destruct (nth_error (parse_audio_entries data s) (S i))
      as [next |] eqn:Hnext; [| lia].
    pose proof (Hvalid _ (nth_error_In _ _ Hnext)). lia. }
  pose proof (try_entry_sized data (parse_audio_entries data s) (Z.of_nat i)
                idx start size w Hsize ltac:(lia) ltac:(lia)) as Htry.
  exists size. split; [exact Hsize |]. split; [exact Hfit |].
  assert (Hpayload : 82 <= size ->
            length (slice data (start + 80) (start + size)) = Z.to_nat (size - 80)).
  { intros Hbig.
    pose proof (slice_length data (start + 80) (start + size)
                  ltac:(lia) ltac:(lia) ltac:(lia)) as Hl.
    unfold len in Hl. lia. }
  split; [| split].
  - intros Hsmall. rewrite Htry.
    assert (Hlt : (size <? 82) = true) by lia. now rewrite Hlt.
  - intros Hbig Hmono Hodd. rewrite Htry.
    assert (Hge : (size <? 82) = false) by lia. rewrite Hge, Hmono.
    rewrite process_pcm_data_mono_odd_half; [reflexivity |].
    rewrite Hpayload, even_half_mod4 by lia. lia.
  - intros Hbig Hok.
    assert (Hge : (size <? 82) = false) by lia. rewrite Hge in Htry.
    assert (Hframes : exists frames,
              process_pcm_data (slice data (start + 80) (start + size))
                (entry_channels data start) = Ok frames).
    { destruct Hok as [Hstereo | Heven].
      - rewrite process_pcm_data_not_mono by lia. eauto.
      - destruct (Z.eq_dec (entry_channels data start) 1) as [Hmono | Hother].
        + rewrite Hmono, process_pcm_data_mono_even_half; [eauto |].
          rewrite Hpayload, even_half_mod4 by lia. lia.
        + rewrite process_pcm_data_not_mono by exact Hother. eauto. }
    destruct Hframes as [frames Hframes]. rewrite Hframes in Htry.
    eexists. exists frames. split; [apply extract_sample_name_value |].
    split; [exact Hframes | exact Htry].
Qed.

(** ** Output files *)

(** A list is cut in one way only at the first occurrence of an
    element. *)
Lemma split_at_first {A : Type} (x : A) (a b r r' : list A) :
  ~ In x a -> ~ In x b ->
  a ++ x :: r = b ++ x :: r' -> a = b /\ r = r'.
Proof.
  revert b. induction a as [| y a IH]; intros [| z b] Ha Hb Heq; simpl in *.
  - injection Heq as ->. now split.
  - injection Heq as -> _. elim Hb. now left.
  - injection Heq as -> _. elim Ha. now left.
  - injection Heq as -> Heq.
    destruct (IH b) as [-> ->]; auto.
Qed.

Lemma format_03d_no_underscore (idx : Z) : ~ In UNDERSCORE (format_03d idx).
Proof.
  intros Hin. pose proof (format_03d_chars idx) as Hchars.
  rewrite Forall_forall in Hchars. destruct (Hchars _ Hin) as [Hd | Hh].
  - discriminate Hd.
  - discriminate Hh.
Qed.

(** The file name tells the index and the base name apart: two entries
    get the same file name only when they have the same index and the
    same sanitized name.  Entries with different indices never overwrite
    each other. *)
Theorem wav_file_name_injective (idx idx' : Z) (base base' : str) :
  idx <> idx' \/ base <> base' ->
  wav_file_name idx base <> wav_file_name idx' base'.
Proof.
  intros Hdiff Heq. unfold wav_file_name in Heq.
  change (pystr "_") with [UNDERSCORE] in Heq. simpl app in Heq.
  apply split_at_first in Heq; try apply format_03d_no_underscore.
  destruct Heq as [Hidx Hbase].
  apply app_inv_tail in Hbase.
  assert (idx = idx').
  { rewrite <- (format_03d_value idx), Hidx. apply format_03d_value. }
  tauto.
Qed.




(** ** The whole run *)



(** ** The further properties at the sample data *)

(** Three channels are treated as two. *)
Lemma process_pcm_data_other_channels_sample :
  3 <> 1 /\
  process_pcm_data [x01; x02; x03] 3 = Ok (swap_words (truncate_even [x01; x02; x03])) /\
  process_pcm_data (swap_words (truncate_even [x01; x02; x03])) 3
  = Ok (truncate_even [x01; x02; x03]).
Proof.
  split; [lia | apply (process_pcm_data_other_channels [x01; x02; x03] 3); lia].
Defined.

(** A mono payload of five bytes gives two. *)
Lemma process_pcm_data_output_shape_sample :
  process_pcm_data [x01; x02; x03; x04; x05] 1 = Ok [x02; x01] /\
  Nat.even (length [x02; x01]) = true /\
  length [x02; x01]
  = (if 1 =? 1
     then (length [x01; x02; x03; x04; x05] / 2)%nat
     else (2 * (length [x01; x02; x03; x04; x05] / 2))%nat) /\
  (length [x02; x01] <= length [x01; x02; x03; x04; x05])%nat /\
  (2 <= length [x01; x02; x03; x04; x05] -> [x02; x01] <> [])%nat.
Proof.
  split; [reflexivity |].
  apply (process_pcm_data_output_shape [x01; x02; x03; x04; x05] [x02; x01] 1).
  reflexivity.
Defined.

(** Index 1 and index 2 with the same base name. *)
Lemma wav_file_name_injective_sample :
  (1 <> 2 \/ pystr "Kick" <> pystr "Kick") /\
  wav_file_name 1 (pystr "Kick") <> wav_file_name 2 (pystr "Kick").
Proof.
  assert (Hdiff : 1 <> 2 \/ pystr "Kick" <> pystr "Kick") by (left; lia).
  split; [exact Hdiff |].
  exact (wav_file_name_injective 1 2 (pystr "Kick") (pystr "Kick") Hdiff).
Defined.

(** The second entry of [sample_container], index 2 at 414, attempted
    with the recording writer. *)
Lemma try_entry_cases_sample :
  find_dwav_section sample_container = Some 200 /\
  nth_error (parse_audio_entries sample_container 200) 1 = Some (2, 414) /\
  exists size : Z,
    entry_size sample_container (parse_audio_entries sample_container 200)
      (Z.of_nat 1) 414 = Ok size /\
    size <= len sample_container - 414 /\
    (size < 82 ->
     @try_entry ascii_only recording_writer sample_container
       (parse_audio_entries sample_container 200) (Z.of_nat 1) 2 414 []
     = ([], Ok false)) /\
    (82 <= size -> entry_channels sample_container 414 = 1 ->
     2 <= (size - 80) mod 4 ->
     @try_entry ascii_only recording_writer sample_container
       (parse_audio_entries sample_container 200) (Z.of_nat 1) 2 414 []
     = ([], Raise ValueError)) /\
    (82 <= size ->
     entry_channels sample_container 414 = 2 \/ (size - 80) mod 4 < 2 ->
     exists (name : str) (frames : bytes),
       @extract_sample_name ascii_only (slice sample_container 414 (414 + 80))
       = Ok name /\
       process_pcm_data (slice sample_container (414 + 80) (414 + size))
         (entry_channels sample_container 414) = Ok frames /\
       @try_entry ascii_only recording_writer sample_container
         (parse_audio_entries sample_container 200) (Z.of_nat 1) 2 414 []
       = (fst (@wave_write recording_writer
                 (wav_file_name 2 (@sanitize_filename ascii_only name 2))
                 (entry_channels sample_container 414) 2
                 (entry_rate sample_container 414) frames []),
          match snd (@wave_write recording_writer
                       (wav_file_name 2 (@sanitize_filename ascii_only name 2))
                       (entry_channels sample_container 414) 2
                       (entry_rate sample_container 414) frames []) with
          | Ok _ => Ok true
          | Raise e => Raise e
          end)).
Proof.
  assert (Hfind : find_dwav_section sample_container = Some 200)
    by (vm_compute; reflexivity).
  assert (Hentry : nth_error (parse_audio_entries sample_container 200) 1
                   = Some (2, 414))
    by (vm_compute; reflexivity).
  split; [exact Hfind |]. split; [exact Hentry |].
  exact (@try_entry_cases ascii_only recording_writer sample_container 200 1
           2 414 [] Hfind Hentry).
Defined.
